(** * Calculator protocol: header codec, expression evaluator, proxy cache

    A shallow embedding of [api.py], [calculator.py], [server.py],
    [proxy.py] and [client.py].  Python integers are [Z], [bytes] are
    lists of [Byte.byte], [str] is [string], a raised exception is the [Raise]
    branch of [result], and the proxy's [cache] dictionary is a [gmap]
    keyed by [(data, show_steps)].  The lists [calculate] appends to are
    objects in a store, the one bound to the default of its [steps]
    parameter among them.  What the code reads from outside (the clock,
    the server behind the proxy, [pickle], the random generator) is an
    argument of the function that reads it. *)

From stdpp Require Import gmap strings list.
From Stdlib Require Import ZArith Lia.
From Stdlib Require Strings.Byte DecimalString.

Local Open Scope Z_scope.

(** ** Exceptions and results *)

(** The exception classes the four modules raise or let through.  The
    messages are f-strings in the source; only their fixed part is kept. *)
Inductive exn : Type :=
| ValueError (msg : string)
| TypeError (msg : string)
| ZeroDivisionError (msg : string)
| StructError (msg : string)
| UnpicklingError (msg : string)
| CalculatorServerError (msg : string)
| CalculatorClientError (msg : string).

Inductive result (A : Type) : Type :=
| OK (a : A)
| Raise (e : exn).
Arguments OK {A} a.
Arguments Raise {A} e.

Definition result_bind {A B} (r : result A) (k : A -> result B) : result B :=
  match r with
  | OK a => k a
  | Raise e => Raise e
  end.

Definition is_OK {A} (r : result A) : bool :=
  match r with OK _ => true | Raise _ => false end.

(** ** Bytes *)

Abbreviation byte := Byte.byte.
Abbreviation bytes := (list Byte.byte).

Definition Z_of_byte (b : byte) : Z := Z.of_N (Byte.to_N b).

Definition byte_of_Z (z : Z) : byte :=
  match Byte.of_N (Z.to_N (z mod 256)) with
  | Some b => b
  | None => Byte.x00
  end.

#[global] Instance byte_eq_dec : EqDecision byte := Byte.byte_eq_dec.
#[global] Instance byte_countable : Countable byte :=
  inj_countable Byte.to_N Byte.of_N Byte.of_to_N.

(** [len(b)] as a Python integer. *)
Definition len {A} (l : list A) : Z := Z.of_nat (length l).

(** ** [struct] with the format ['!LHHHxx'] *)

Module struct.

(** [n] bytes of [z], most significant first. *)
Fixpoint to_bytes_be (n : nat) (z : Z) : bytes :=
  match n with
  | O => []
  | S k => byte_of_Z (z / 256 ^ Z.of_nat k) :: to_bytes_be k z
  end.

Definition from_bytes_be (bs : bytes) : Z :=
  fold_left (fun acc b => acc * 256 + Z_of_byte b) bs 0.

Definition fits (bits : Z) (z : Z) : bool :=
  (0 <=? z) && (z <? 2 ^ bits).

(** [struct.pack('!LHHHxx', l, h1, h2, h3)]: an argument outside its
    field's range raises [struct.error]. *)
Definition pack (l h1 h2 h3 : Z) : result bytes :=
  if negb (fits 32 l) then Raise (StructError "'L' format requires 0 <= number <= 4294967295")
  else if negb (fits 16 h1 && fits 16 h2 && fits 16 h3)
  then Raise (StructError "'H' format requires 0 <= number <= 65535")
  else OK (to_bytes_be 4 l ++ to_bytes_be 2 h1 ++ to_bytes_be 2 h2
           ++ to_bytes_be 2 h3 ++ [Byte.x00; Byte.x00]).

(** [struct.calcsize('!LHHHxx')] *)
Definition calcsize : Z := 12.

(** [struct.unpack('!LHHHxx', buf)]: the buffer must be exactly 12
    bytes; the two pad bytes are skipped. *)
Definition unpack (buf : bytes) : result (Z * Z * Z * Z) :=
  if negb (len buf =? calcsize) then Raise (StructError "unpack requires a buffer of 12 bytes")
  else OK (from_bytes_be (take 4 buf),
           from_bytes_be (take 2 (drop 4 buf)),
           from_bytes_be (take 2 (drop 6 buf)),
           from_bytes_be (take 2 (drop 8 buf))).

End struct.

(** ** [api.CalculatorHeader] *)

Definition HEADER_MIN_LENGTH : Z := struct.calcsize.
Definition HEADER_MAX_LENGTH : Z := 2 ^ 16.
Definition HEADER_MAX_DATA_LENGTH : Z := HEADER_MAX_LENGTH - HEADER_MIN_LENGTH.
Definition MAX_CACHE_CONTROL : Z := 2 ^ 16 - 1.
Definition BUFFER_SIZE : Z := 65536.

Definition STATUS_OK : Z := 200.
Definition STATUS_CLIENT_ERROR : Z := 400.
Definition STATUS_SERVER_ERROR : Z := 500.
Definition STATUS_UNKNOWN : Z := 999.

Record CalculatorHeader : Type := {
  unix_time_stamp : Z;
  total_length : Z;
  reserved : Z;
  cache_result : bool;
  show_steps : bool;
  is_request : bool;
  status_code : Z;
  cache_control : Z;
  data : bytes
}.

(** What [warnings.warn] is called with in [__init__]. *)
Inductive warning : Type :=
| WarnLengthMismatch
| WarnReservedNotZero
| WarnRequestStatus
| WarnCacheControlIgnored
| WarnResponseNotCached.

#[global] Instance warning_eq_dec : EqDecision warning.
Proof. solve_decision. Defined.

Definition warn_if (c : bool) (w : warning) : list warning :=
  if c then [w] else [].

(** [CalculatorHeader.__init__]; [total_length = None] is the Python
    [None].  The result carries the warnings emitted on the way. *)
Definition CalculatorHeader_init
    (unix_time_stamp : Z) (total_length : option Z) (reserved : Z)
    (cache_result show_steps is_request : bool)
    (status_code cache_control : Z) (data : bytes)
  : result (CalculatorHeader * list warning) :=
  let total_length :=
    match total_length with
    | None => HEADER_MIN_LENGTH + len data
    | Some n => n
    end in
  if negb ((HEADER_MIN_LENGTH <=? total_length) && (total_length <=? HEADER_MAX_LENGTH))
  then Raise (ValueError "Invalid total length")
  else
    let w1 := warn_if (negb (total_length =? HEADER_MIN_LENGTH + len data)) WarnLengthMismatch in
    let w2 := warn_if (negb (reserved =? 0)) WarnReservedNotZero in
    let w3 := warn_if (is_request && negb (status_code =? 0)) WarnRequestStatus in
    let '(cache_result', cache_control', w4) :=
      if negb (cache_control =? 0) && negb cache_result
      then (cache_result, 0, [WarnCacheControlIgnored])
      else if negb is_request && (cache_control =? 0) && cache_result
      then (false, cache_control, [WarnResponseNotCached])
      else (cache_result, cache_control, []) in
    if len data >? HEADER_MAX_DATA_LENGTH
    then Raise (ValueError "Invalid data length")
    else OK ({| unix_time_stamp := unix_time_stamp;
                total_length := total_length;
                reserved := reserved;
                cache_result := cache_result';
                show_steps := show_steps;
                is_request := is_request;
                status_code := status_code;
                cache_control := cache_control';
                data := data |},
             w1 ++ w2 ++ w3 ++ w4).

(** [bool(x)] for an integer [x]. *)
Definition bool_of_int (x : Z) : bool := negb (x =? 0).

Definition pack_flags (reserved : Z) (cache_result show_steps is_request : bool)
    (status_code : Z) : Z :=
  Z.lor (Z.lor (Z.lor (Z.lor (Z.shiftl reserved 13)
                             (Z.shiftl (Z.b2z cache_result) 12))
                      (Z.shiftl (Z.b2z show_steps) 11))
               (Z.shiftl (Z.b2z is_request) 10))
        status_code.

Definition unpack_flags (flags : Z) : Z * bool * bool * bool * Z :=
  let status_code := Z.land flags (Z.shiftl 1 10 - 1) in
  let is_request := Z.land flags (Z.shiftl 1 10) in
  let show_steps := Z.land flags (Z.shiftl 1 11) in
  let cache_result := Z.land flags (Z.shiftl 1 12) in
  let reserved := Z.land (Z.shiftr flags 13) (Z.shiftl 1 3 - 1) in
  (reserved, bool_of_int cache_result, bool_of_int show_steps,
   bool_of_int is_request, status_code).

(** [CalculatorHeader.pack] *)
Definition pack (self : CalculatorHeader) : result bytes :=
  result_bind
    (struct.pack (unix_time_stamp self) (total_length self)
       (pack_flags (reserved self) (cache_result self) (show_steps self)
          (is_request self) (status_code self))
       (cache_control self))
    (fun prefix => OK (prefix ++ data self)).

(** [CalculatorHeader.unpack], with the warnings of the constructor. *)
Definition unpack_warn (buf : bytes) : result (CalculatorHeader * list warning) :=
  if len buf <? HEADER_MIN_LENGTH
  then Raise (ValueError "The data is too short to be a valid header")
  else
    result_bind (struct.unpack (take (Z.to_nat HEADER_MIN_LENGTH) buf))
      (fun '(unix_time_stamp, total_length, flags, cache_control) =>
         let '(reserved, cache_result, show_steps, is_request, status_code) :=
           unpack_flags flags in
         CalculatorHeader_init unix_time_stamp (Some total_length) reserved
           cache_result show_steps is_request status_code cache_control
           (drop (Z.to_nat HEADER_MIN_LENGTH) buf)).

Definition unpack (buf : bytes) : result CalculatorHeader :=
  result_bind (unpack_warn buf) (fun hw => OK (fst hw)).

(** [from_request], [from_response] and [from_error]/[from_result] once
    the payload is pickled; [now] is [int(time.time())]. *)
Definition from_request (now : Z) (data : bytes) (show_steps cache_result : bool)
    (cache_control : Z) : result (CalculatorHeader * list warning) :=
  CalculatorHeader_init now None 0 cache_result show_steps true 0 cache_control data.

Definition from_response (now : Z) (data : bytes) (status_code : Z)
    (show_steps cache_result : bool) (cache_control : Z)
  : result (CalculatorHeader * list warning) :=
  CalculatorHeader_init now None 0 cache_result show_steps false status_code
    cache_control data.

(** ** [calculator.py]: the expression model *)

(** Python slices [s[a:b]] with non-negative bounds, on strings. *)
Definition str_slice (s : string) (a b : nat) : string :=
  String.substring a (b - a) s.

Section Calculator.

(** [numbers.Real], with Python's [str] on it. *)
Variable num : Type.
Variable str_of_num : num -> string.

(** The state of the generator behind [random.uniform], the one
    callable of the predefined tables that is not a pure function. *)
Variable RandomState : Type.

Inductive Associativity : Type := LEFT | RIGHT.

Record BinaryOperator : Type := {
  bin_symbol : string;
  bin_function : num -> num -> result num;
  associativity : Associativity
}.

Record UnaryOperator : Type := {
  un_symbol : string;
  un_function : num -> result num
}.

(** A [Function] is called with the values of its arguments; of the
    entries of [FUNCTIONS] only [rand] reads and advances the generator. *)
Record Function : Type := {
  fn_name : string;
  fn_function : list num -> RandomState -> result num * RandomState
}.

(** The subclasses of [Expression].  The class is open in Python:
    [OtherExpression] stands for an instance of any further subclass,
    which only has to implement [__str__].  The [value] of a
    [NamedConstant] is a number, as in every entry of [NAMED_CONSTANTS]
    and as the return type of [calculate] has it. *)
#[warnings="-register-all"]
Inductive Expression : Type :=
| Constant (value : num)
| NamedConstant (name : string) (value : num)
| BinaryExpr (left_operand : Expression) (operator : BinaryOperator)
    (right_operand : Expression)
| UnaryExpr (operator : UnaryOperator) (operand : Expression)
| FunctionCallExpr (function : Function) (args : list Expression)
| OtherExpression (str : string).

(** [Expr = typing.Union[Expression, numbers.Real]] *)
Inductive Expr : Type :=
| Real (x : num)
| Expn (e : Expression).

Definition type_fallback (var : Expr) : Expression :=
  match var with
  | Expn e => e
  | Real x => Constant x
  end.

Definition is_BinaryExpr (e : Expression) : bool :=
  match e with BinaryExpr _ _ _ => true | _ => false end.

(** The constructors as Python calls them, operands of type [Expr]. *)
Definition BinaryExpr_init (l : Expr) (op : BinaryOperator) (r : Expr) : Expression :=
  BinaryExpr (type_fallback l) op (type_fallback r).
Definition UnaryExpr_init (op : UnaryOperator) (x : Expr) : Expression :=
  UnaryExpr op (type_fallback x).
Definition FunctionCallExpr_init (f : Function) (args : list Expr) : Expression :=
  FunctionCallExpr f (map type_fallback args).

Definition parens (s : string) : string := "(" +:+ s +:+ ")".

(** [__str__] *)
Fixpoint str (e : Expression) : string :=
  match e with
  | Constant value => str_of_num value
  | NamedConstant name _ => name
  | BinaryExpr l op r =>
      let left := str l in
      let right := str r in
      let left := if is_BinaryExpr l then parens left else left in
      let right := if is_BinaryExpr r then parens right else right in
      left +:+ " " +:+ bin_symbol op +:+ " " +:+ right
  | UnaryExpr op x => un_symbol op +:+ str x
  | FunctionCallExpr f args =>
      fn_name f +:+ parens (String.concat ", " (map str args))
  | OtherExpression s => s
  end.

(** [__str_brackets__]; the [brackets] argument is passed down and
    never read. *)
Fixpoint str_brackets (e : Expression) (brackets : bool) : string :=
  match e with
  | BinaryExpr l op r =>
      parens (str_brackets l brackets +:+ " " +:+ bin_symbol op +:+ " "
              +:+ str_brackets r brackets)
  | UnaryExpr op x => un_symbol op +:+ parens (str_brackets x brackets)
  | FunctionCallExpr f args =>
      fn_name f
      +:+ parens (String.concat ", " (map (fun arg => str_brackets arg brackets) args))
  | _ => str e
  end.

End Calculator.

Arguments Constant {num RandomState} value.
Arguments NamedConstant {num RandomState} name value.
Arguments BinaryExpr {num RandomState} left_operand operator right_operand.
Arguments UnaryExpr {num RandomState} operator operand.
Arguments FunctionCallExpr {num RandomState} function args.
Arguments OtherExpression {num RandomState} str.
Arguments Real {num RandomState} x.
Arguments Expn {num RandomState} e.
Arguments type_fallback {num RandomState} var.
Arguments is_BinaryExpr {num RandomState} e.
Arguments str {num} str_of_num {RandomState} e.
Arguments str_brackets {num} str_of_num {RandomState} e brackets.
Arguments bin_symbol {num} _.
Arguments bin_function {num} _.
Arguments un_symbol {num} _.
Arguments un_function {num} _.
Arguments fn_name {num RandomState} _.
Arguments fn_function {num RandomState} _.

(** *** The pass of [stringify] that removes brackets *)

(** A [dict] with integer keys, in insertion order. *)
Definition dict := list (nat * nat).

Fixpoint dict_get (d : dict) (k : nat) : option nat :=
  match d with
  | [] => None
  | (k', v) :: d' => if Nat.eqb k' k then Some v else dict_get d' k
  end.

(** [d[k] = v]: an existing key keeps its place. *)
Fixpoint dict_set (d : dict) (k v : nat) : dict :=
  match d with
  | [] => [(k, v)]
  | (k', v') :: d' => if Nat.eqb k' k then (k, v) :: d' else (k', v') :: dict_set d' k v
  end.

Definition is_char (c : Ascii.ascii) (s : string) : bool :=
  if decide (String c EmptyString = s) then true else false.

(** The first loop, lines 292-298: [i] is the index of the head of
    [s]; the head of [stack] is its top. *)
Fixpoint match_brackets (s : string) (i : nat) (matchings : dict) (stack : list nat)
  : result (dict * list nat) :=
  match s with
  | EmptyString => OK (matchings, stack)
  | String char s' =>
      if is_char char "(" then match_brackets s' (S i) matchings (i :: stack)
      else if is_char char ")" then
        match stack with
        | [] => Raise (ValueError "Unmatched closing bracket")
        | top :: stack' => match_brackets s' (S i) (dict_set matchings top i) stack'
        end
      else match_brackets s' (S i) matchings stack
  end.

(** The body of the second loop, lines 303-304. *)
Definition remove_pair (matchings : dict) (expr_s : string) (item : nat * nat) : string :=
  let left := fst item in
  let right := snd item in
  match dict_get matchings (left + 1) with
  | Some m =>
      if (Z.of_nat m =? Z.of_nat right - 1)%Z
      then str_slice expr_s 0 left +:+ str_slice expr_s (left + 1) (right - 1)
           +:+ str_slice expr_s right (String.length expr_s)
      else expr_s
  | None => expr_s
  end.

(** Lines 290-307 of [stringify], on the rendered string. *)
Definition strip_brackets (expr_s : string) : result string :=
  result_bind (match_brackets expr_s 0 [] [])
    (fun '(matchings, stack) =>
       match stack with
       | _ :: _ => Raise (ValueError "Unmatched opening bracket")
       | [] =>
           let expr_s := fold_left (remove_pair matchings) matchings expr_s in
           match dict_get matchings 0 with
           | Some m =>
               if (Z.of_nat m =? Z.of_nat (String.length expr_s) - 1)%Z
               then OK (str_slice expr_s 1 (String.length expr_s - 1))
               else OK expr_s
           | None => OK expr_s
           end
       end).

Definition stringify {num RandomState} (str_of_num : num -> string)
    (expression : @Expr num RandomState) (add_brackets : bool) : result string :=
  let expr := type_fallback expression in
  let expr_s := if add_brackets then str_brackets str_of_num expr true
                else str str_of_num expr in
  strip_brackets expr_s.

(** ** [server.py]: the evaluator *)

(** [calculate] appends to the list object it is given, and the default
    value of its [steps] parameter is one list object made when the
    function is defined.  List objects therefore live in a store and are
    passed by address. *)
Abbreviation loc := nat.

Section Evaluator.

Context {num RandomState : Type}.

#[local] Abbreviation Expression := (Expression num RandomState).

Record State : Type := {
  heap : list (list Expression);   (* the list objects, by address *)
  random : RandomState             (* the generator of module [random] *)
}.

(** A computation runs on the store and ends with a value or a raised
    exception; the store survives the exception. *)
Definition M (A : Type) : Type := State -> result A * State.

Definition ret {A} (a : A) : M A := fun st => (OK a, st).

Definition raise {A} (e : exn) : M A := fun st => (Raise e, st).

Definition bind {A B} (m : M A) (k : A -> M B) : M B :=
  fun st =>
    match m st with
    | (OK a, st') => k a st'
    | (Raise e, st') => (Raise e, st')
    end.

Definition lift {A} (r : result A) : M A := fun st => (r, st).

(** [[]]: a new list object *)
Definition new_list : M loc :=
  fun st => (OK (length (heap st)),
             {| heap := heap st ++ [[]]; random := random st |}).

(** [l.append(x)] *)
Definition list_append (l : loc) (x : Expression) : M unit :=
  fun st => (OK tt,
             {| heap := alter (fun xs => xs ++ [x]) l (heap st);
                random := random st |}).

(** The elements of the list at [l], as [l[:]] copies them. *)
Definition contents (st : State) (l : loc) : list Expression :=
  default [] (heap st !! l).

Definition list_read (l : loc) : M (list Expression) :=
  fun st => (OK (contents st l), st).

(** [f.function( *args )] *)
Definition call (f : Function num RandomState) (args : list num) : M num :=
  fun st =>
    let '(r, g) := fn_function f args (random st) in
    (r, {| heap := heap st; random := g |}).

Fixpoint for_each {A} (xs : list A) (body : A -> M unit) : M unit :=
  match xs with
  | [] => ret tt
  | x :: xs' => bind (body x) (fun _ => for_each xs' body)
  end.

(** [xs[:-1]] *)
Definition all_but_last {A} (xs : list A) : list A :=
  take (length xs - 1) xs.

End Evaluator.

Arguments State : clear implicits.
Arguments M : clear implicits.

Declare Scope calc_scope.
Delimit Scope calc_scope with calc.
Notation "'let*' x ':=' c 'in' k" := (bind c (fun x => k))
  (at level 10, x pattern, c at level 100, k at level 200) : calc_scope.
Notation "c1 '>>' c2" := (bind c1 (fun _ => c2))
  (at level 100, c2 at level 200, right associativity) : calc_scope.

Section Calculate.

Context {num RandomState : Type}.

#[local] Abbreviation Expression := (Expression num RandomState).
#[local] Abbreviation M := (M num RandomState).

Local Open Scope calc_scope.

(** The loop over [expr.args], lines 44-50: [rest] is what is left of
    [expr.args], [args] the values found so far. *)
Section ArgumentLoop.

Variable calculate : Expression -> loc -> M (num * loc).
Variable function : Function num RandomState.
Variable expr_args : list Expression.
Variable steps : loc.

Fixpoint calculate_args (rest : list Expression) (args : list num)
  : M (list num) :=
  match rest with
  | [] => ret args
  | arg :: rest' =>
      let* arg_steps := new_list in
      let* (arg', arg_steps) := calculate arg arg_steps in
      let* xs := list_read arg_steps in
      for_each (all_but_last xs) (fun step =>
        list_append steps
          (FunctionCallExpr_init _ _ function
             (map Real args ++ [Expn step]
              ++ map Expn (drop (length args + 1) expr_args)))) >>
      calculate_args rest' (args ++ [arg'])
  end.

End ArgumentLoop.

(** [calculate], after [expr = api.type_fallback(expression)]; [steps]
    is the address of the list the caller passed.  The value returned
    is [const.value] with that same address. *)
Fixpoint calculate (expr : Expression) (steps : loc) : M (num * loc) :=
  match expr with
  | Constant value => ret (value, steps)
  | NamedConstant _ value => ret (value, steps)
  | BinaryExpr left_operand operator right_operand =>
      let* left_steps := new_list in
      let* right_steps := new_list in
      let* (left', left_steps) := calculate left_operand left_steps in
      let* xs := list_read left_steps in
      for_each (all_but_last xs) (fun step =>
        list_append steps
          (BinaryExpr_init _ _ (Expn step) operator (Expn right_operand))) >>
      let* (right', left_steps) := calculate right_operand right_steps in
      let* xs := list_read right_steps in
      for_each (all_but_last xs) (fun step =>
        list_append steps (BinaryExpr_init _ _ (Real left') operator (Expn step))) >>
      list_append steps (BinaryExpr_init _ _ (Real left') operator (Real right')) >>
      let* value := lift (bin_function operator left' right') in
      list_append steps (Constant value) >>
      ret (value, steps)
  | UnaryExpr operator operand =>
      let* operand_steps := new_list in
      let* (operand', operand_steps) := calculate operand operand_steps in
      let* xs := list_read operand_steps in
      for_each (all_but_last xs) (fun step =>
        list_append steps (UnaryExpr_init _ _ operator (Expn step))) >>
      list_append steps (UnaryExpr_init _ _ operator (Real operand')) >>
      let* value := lift (un_function operator operand') in
      list_append steps (Constant value) >>
      ret (value, steps)
  | FunctionCallExpr function expr_args =>
      let* args := calculate_args calculate function expr_args steps expr_args [] in
      list_append steps (FunctionCallExpr_init _ _ function (map Real args)) >>
      let* value := call function args in
      list_append steps (Constant value) >>
      ret (value, steps)
  | OtherExpression _ => raise (TypeError "Unknown expression type")
  end.

(** The list object bound to the default of [steps] when [def
    calculate] runs; every call that omits [steps] receives it. *)
Definition calculate_defaults : loc := 0%nat.

Definition module_loaded (g : RandomState) : State num RandomState :=
  {| heap := [[]]; random := g |}.

(** [calculate(expression)] *)
Definition calculate_omitted (expression : Expr num RandomState) : M (num * loc) :=
  calculate (type_fallback expression) calculate_defaults.

(** [calculate(expression, [])] *)
Definition calculate_fresh (expression : Expr num RandomState) : M (num * loc) :=
  let* steps := new_list in
  calculate (type_fallback expression) steps.

(** What the caller of [calculate] holds when the call returns: the
    value, and the elements of the returned list at that moment. *)
Definition returned (p : result (num * loc) * State num RandomState)
  : result (num * list Expression) :=
  match p.1 with
  | OK (value, steps) => OK (value, contents p.2 steps)
  | Raise e => Raise e
  end.

End Calculate.

(** ** [server.py]: [process_request] *)

Definition CACHE_POLICY : bool := true.
Definition CACHE_CONTROL : Z := 2 ^ 16 - 1.

Fixpoint result_map {A B} (f : A -> result B) (xs : list A) : result (list B) :=
  match xs with
  | [] => OK []
  | x :: xs' =>
      result_bind (f x) (fun y =>
      result_bind (result_map f xs') (fun ys => OK (y :: ys)))
  end.

Section ServerRequest.

Context {num RandomState : Type}.
Variable str_of_num : num -> string.

#[local] Abbreviation Expression := (Expression num RandomState).
#[local] Abbreviation M := (M num RandomState).

(** What [pickle.loads] can give back to [data_to_expression]. *)
Inductive unpickled : Type :=
| ObjExpression (e : Expression)
| ObjOther.

(** The payload codec, [pickle]. *)
Variable pickle_loads : bytes -> result unpickled.
Variable pickle_dumps_result : num * list string -> bytes.
Variable pickle_dumps_error : exn -> bytes.

(** [api.data_to_expression]: the [ValueError] raised in the [try]
    body is caught by the last handler and raised again. *)
Definition data_to_expression (header : CalculatorHeader) : result Expression :=
  match pickle_loads (data header) with
  | OK (ObjExpression expr) => OK expr
  | OK ObjOther => Raise (ValueError "Received data is not an Expression2")
  | Raise (UnpicklingError _) => Raise (ValueError "Received data could not be deserialized")
  | Raise _ => Raise (ValueError "Received data is not an Expression2")
  end.

Definition header_only (r : result (CalculatorHeader * list warning))
  : result CalculatorHeader :=
  result_bind r (fun hw => OK (fst hw)).

Definition from_result (now : Z) (value : num) (steps : list string)
    (cache_result : bool) (cache_control : Z) : result CalculatorHeader :=
  header_only
    (from_response now (pickle_dumps_result (value, steps)) STATUS_OK
       (negb (bool_decide (steps = []))) cache_result cache_control).

Definition from_error (now : Z) (error : exn) (status_code : Z)
    (cache_result : bool) (cache_control : Z) : result CalculatorHeader :=
  header_only
    (from_response now (pickle_dumps_error error) status_code false
       cache_result cache_control).

Local Open Scope calc_scope.

(** The [try] body of [process_request], lines 65-69. *)
Definition process_request_try (request : CalculatorHeader) (steps : loc)
  : M (num * loc) :=
  if is_request request then
    let* expr := lift (data_to_expression request) in
    calculate expr steps
  else raise (TypeError "Received a response instead of a request").

(** [server.process_request]; [now] is what [time.time()] gives when
    the response header is built. *)
Definition server_process_request (request : CalculatorHeader) (now : Z)
  : M CalculatorHeader :=
  let* steps := new_list in
  fun st =>
    match process_request_try request steps st with
    | (Raise e, st') =>
        (from_error now e STATUS_CLIENT_ERROR CACHE_POLICY CACHE_CONTROL, st')
    | (OK (value, steps), st') =>
        let steps :=
          if show_steps request
          then result_map (fun step => stringify str_of_num (Expn step) true)
                 (contents st' steps)
          else OK [] in
        (result_bind steps (fun steps =>
           from_result now value steps CACHE_POLICY CACHE_CONTROL), st')
    end.

End ServerRequest.

Arguments ObjExpression {num RandomState} e.
Arguments ObjOther {num RandomState}.

(** ** [proxy.py]: [process_request] *)

Definition INDEFINITE : Z := MAX_CACHE_CONTROL.

(** A number of seconds or [math.inf]. *)
Inductive seconds : Type :=
| Finite (z : Z)
| Infinite.

(** [cc if cc != INDEFINITE else math.inf] *)
Definition max_age (cache_control : Z) : seconds :=
  if negb (cache_control =? INDEFINITE) then Finite cache_control else Infinite.

(** [cc - age] *)
Definition minus (cc : seconds) (age : Z) : seconds :=
  match cc with
  | Finite z => Finite (z - age)
  | Infinite => Infinite
  end.

(** [t > 0] *)
Definition positive_time (t : seconds) : bool :=
  match t with
  | Finite z => z >? 0
  | Infinite => true
  end.

(** The server behind the proxy: whether it accepts the connection, and
    the bytes [recv] delivers after the request bytes were sent. *)
Record Upstream : Type := {
  accepts : bool;
  reply : bytes -> bytes
}.

(** What the proxy does on its socket to the server. *)
Inductive event : Type :=
| Connect
| SendAll (b : bytes)
| Recv (b : bytes).

(** The tuple [process_request] returns. *)
Record Outcome : Type := {
  response : CalculatorHeader;
  server_time_remaining : seconds;
  client_time_remaining : seconds;
  cache_hit : bool;
  was_stale : bool;
  cached : bool
}.

Abbreviation Cache := (gmap (bytes * bool) CalculatorHeader).

(** Lines 44-74: ask the server, and cache its response if all sides
    agree. *)
Definition forward (request : CalculatorHeader) (cache : Cache)
    (time_response : Z) (server : Upstream) (was_stale : bool)
  : result Outcome * Cache * list event :=
  if negb (accepts server)
  then (Raise (CalculatorServerError "Connection refused by server and the request was not in the cache/it was stale"),
        cache, [Connect])
  else
    match pack request with
    | Raise e => (Raise e, cache, [Connect])
    | OK sent =>
        let received := take (Z.to_nat BUFFER_SIZE) (reply server sent) in
        let trace := [Connect; SendAll sent; Recv received] in
        match unpack received with
        | Raise _ => (Raise (CalculatorClientError "Error while unpacking request"), cache, trace)
        | OK response =>
            if is_request response
            then (Raise (TypeError "Received a request instead of a response"), cache, trace)
            else
              let current_time := time_response in
              let age := current_time - unix_time_stamp response in
              let res_cc := max_age (cache_control response) in
              let req_cc := max_age (cache_control request) in
              let server_time_remaining := minus res_cc age in
              let client_time_remaining := minus req_cc age in
              if cache_result request && cache_result response
                 && (positive_time server_time_remaining
                     && positive_time client_time_remaining)
              then (OK {| response := response;
                          server_time_remaining := server_time_remaining;
                          client_time_remaining := client_time_remaining;
                          cache_hit := false; was_stale := was_stale; cached := true |},
                    <[(data request, show_steps request) := response]> cache, trace)
              else (OK {| response := response;
                          server_time_remaining := server_time_remaining;
                          client_time_remaining := client_time_remaining;
                          cache_hit := false; was_stale := was_stale; cached := false |},
                    cache, trace)
        end
    end.

(** [proxy.process_request]: [time_lookup] and [time_response] are what
    [int(time.time())] gives at line 31 and at line 63. *)
Definition proxy_process_request (request : CalculatorHeader) (cache : Cache)
    (time_lookup time_response : Z) (server : Upstream)
  : result Outcome * Cache * list event :=
  if negb (is_request request)
  then (Raise (TypeError "Received a response instead of a request"), cache, [])
  else
    let data := data request in
    match cache !! (data, show_steps request) with
    | Some response =>
        if negb (cache_control request =? 0) then
          let current_time := time_lookup in
          let age := current_time - unix_time_stamp response in
          let res_cc := max_age (cache_control response) in
          let req_cc := max_age (cache_control request) in
          let server_time_remaining := minus res_cc age in
          let client_time_remaining := minus req_cc age in
          if positive_time server_time_remaining && positive_time client_time_remaining
          then (OK {| response := response;
                      server_time_remaining := server_time_remaining;
                      client_time_remaining := client_time_remaining;
                      cache_hit := true; was_stale := false; cached := false |},
                cache, [])
          else forward request cache time_response server true
        else forward request cache time_response server false
    | None => forward request cache time_response server false
    end.

(** ** What a call of [calculate] appends *)

(** [steps_of expr g] gives, for a call of [calculate] on [expr] started
    with the generator in state [g]: the value returned or the exception
    raised, the elements appended to the list passed as [steps] until
    then, and the state of the generator afterwards.  It is the reference
    against which the store-passing [calculate] is proved. *)
Section StepsOf.

Context {num RandomState : Type}.

#[local] Abbreviation Expression := (Expression num RandomState).

Section ArgumentSteps.

Variable steps_of :
  Expression -> RandomState -> result num * list Expression * RandomState.
Variable function : Function num RandomState.
Variable expr_args : list Expression.

Fixpoint args_steps (rest : list Expression) (args : list num) (g : RandomState)
  : result (list num) * list Expression * RandomState :=
  match rest with
  | [] => (OK args, [], g)
  | arg :: rest' =>
      match steps_of arg g with
      | (Raise e, _, g1) => (Raise e, [], g1)
      | (OK arg', xs, g1) =>
          let shown :=
            map (fun step =>
                   FunctionCallExpr function
                     (map Constant args ++ [step]
                      ++ drop (length args + 1) expr_args))
              (all_but_last xs) in
          match args_steps rest' (args ++ [arg']) g1 with
          | (r, later, g2) => (r, shown ++ later, g2)
          end
      end
  end.

End ArgumentSteps.

Fixpoint steps_of (expr : Expression) (g : RandomState)
  : result num * list Expression * RandomState :=
  match expr with
  | Constant value => (OK value, [], g)
  | NamedConstant _ value => (OK value, [], g)
  | BinaryExpr l op r =>
      match steps_of l g with
      | (Raise e, _, g1) => (Raise e, [], g1)
      | (OK left', xs, g1) =>
          let shown_left :=
            map (fun step => BinaryExpr step op r) (all_but_last xs) in
          match steps_of r g1 with
          | (Raise e, _, g2) => (Raise e, shown_left, g2)
          | (OK right', ys, g2) =>
              let shown :=
                shown_left
                ++ map (fun step => BinaryExpr (Constant left') op step)
                     (all_but_last ys)
                ++ [BinaryExpr (Constant left') op (Constant right')] in
              match bin_function op left' right' with
              | Raise e => (Raise e, shown, g2)
              | OK value => (OK value, shown ++ [Constant value], g2)
              end
          end
      end
  | UnaryExpr op x =>
      match steps_of x g with
      | (Raise e, _, g1) => (Raise e, [], g1)
      | (OK operand', xs, g1) =>
          let shown :=
            map (fun step => UnaryExpr op step) (all_but_last xs)
            ++ [UnaryExpr op (Constant operand')] in
          match un_function op operand' with
          | Raise e => (Raise e, shown, g1)
          | OK value => (OK value, shown ++ [Constant value], g1)
          end
      end
  | FunctionCallExpr f expr_args =>
      match args_steps steps_of f expr_args expr_args [] g with
      | (Raise e, shown, g1) => (Raise e, shown, g1)
      | (OK args, shown, g1) =>
          let shown := shown ++ [FunctionCallExpr f (map Constant args)] in
          match fn_function f args g1 with
          | (Raise e, g2) => (Raise e, shown, g2)
          | (OK value, g2) => (OK value, shown ++ [Constant value], g2)
          end
      end
  | OtherExpression _ => (Raise (TypeError "Unknown expression type"), [], g)
  end.

(** Whether [expr] is a [Constant] or a [NamedConstant]. *)
Definition is_leaf (expr : Expression) : bool :=
  match expr with
  | Constant _ | NamedConstant _ _ => true
  | _ => false
  end.

(** A function whose result does not depend on the generator and which
    leaves the generator as it is: every entry of [FUNCTIONS] but
    [rand]. *)
Definition leaves_generator (f : Function num RandomState) : Prop :=
  exists p : list num -> result num,
    forall args g, fn_function f args g = (p args, g).

(** An expression none of whose calls draws from the generator. *)
Fixpoint no_random (expr : Expression) : Prop :=
  match expr with
  | BinaryExpr l _ r => no_random l /\ no_random r
  | UnaryExpr _ x => no_random x
  | FunctionCallExpr f args =>
      leaves_generator f /\ fold_right (fun arg rest => no_random arg /\ rest) True args
  | _ => True
  end.

(** What a call returns and appends is the same from every state of the
    generator, which it leaves unchanged. *)
Definition generator_free (expr : Expression) : Prop :=
  exists r Δ, forall g, steps_of expr g = (r, Δ, g).

End StepsOf.

(** ** Integers as numbers, for closed examples *)

Module Ints.

(** [str] on a Python [int]. *)
Definition str_of_int (z : Z) : string :=
  DecimalString.NilZero.string_of_int (Z.to_int z).

(** The generator, given by the numbers it returns next. *)
Definition RandomState : Type := list Z.

Abbreviation Expression := (Expression Z RandomState).

Definition pure_function (name : string) (f : list Z -> result Z)
  : Function Z RandomState :=
  {| fn_name := name; fn_function := fun args g => (f args, g) |}.

(** Entries of [BINARY_OPERATORS], [UNARY_OPERATORS] and [FUNCTIONS],
    on integers. *)
Definition ADD : BinaryOperator Z :=
  {| bin_symbol := "+"; bin_function := fun a b => OK (a + b);
     associativity := LEFT |}.
Definition MUL : BinaryOperator Z :=
  {| bin_symbol := "*"; bin_function := fun a b => OK (a * b);
     associativity := LEFT |}.
Definition MOD : BinaryOperator Z :=
  {| bin_symbol := "%";
     bin_function := fun a b =>
       if b =? 0 then Raise (ZeroDivisionError "integer modulo by zero")
       else OK (a mod b);
     associativity := LEFT |}.
Definition NEG : UnaryOperator Z :=
  {| un_symbol := "-"; un_function := fun a => OK (- a) |}.
Definition MAX : Function Z RandomState :=
  pure_function "max" (fun args =>
    match args with
    | [] => Raise (TypeError "max expected at least 1 argument, got 0")
    | [_] => Raise (TypeError "'int' object is not iterable")
    | a :: rest => OK (fold_left Z.max rest a)
    end).

(** [random.uniform]: the next number of the generator (the lower
    bound once the numbers are used up). *)
Definition RAND : Function Z RandomState :=
  {| fn_name := "rand";
     fn_function := fun args g =>
       match args with
       | [a; b] =>
           match g with
           | x :: g' => (OK x, g')
           | [] => (OK a, [])
           end
       | _ => (Raise (TypeError "uniform() takes 2 positional arguments"), g)
       end |}.

Definition const (z : Z) : Expression := Constant z.

(** A codec that knows three payloads. *)
Definition payload_unknown_kind : bytes := [Byte.x01].
Definition payload_modulo_zero : bytes := [Byte.x02].
Definition payload_sum : bytes := [Byte.x03].

Definition pickle_loads (b : bytes) : result (@unpickled Z RandomState) :=
  if decide (b = payload_unknown_kind)
  then OK (ObjExpression (OtherExpression "Matrix"))
  else if decide (b = payload_modulo_zero)
  then OK (ObjExpression (BinaryExpr (const 1) MOD (const 0)))
  else if decide (b = payload_sum)
  then OK (ObjExpression (BinaryExpr (const 1) ADD (const 2)))
  else if decide (b = [])
  then Raise (UnpicklingError "Ran out of input")
  else OK ObjOther.

Definition pickle_dumps_result (r : Z * list string) : bytes := [Byte.x80].
Definition pickle_dumps_error (e : exn) : bytes := [Byte.x81].

(** A request carrying [payload], as [from_request] builds it at time
    1000 with [show_steps], [cache_result] and [cache_control] 65535. *)
Definition request_for (payload : bytes) : CalculatorHeader :=
  {| unix_time_stamp := 1000; total_length := 12 + len payload; reserved := 0;
     cache_result := true; show_steps := true; is_request := true;
     status_code := 0; cache_control := 65535; data := payload |}.

(** A cacheable response stamped at time 1000. *)
Definition some_response : CalculatorHeader :=
  {| unix_time_stamp := 1000; total_length := 13; reserved := 0;
     cache_result := true; show_steps := false; is_request := false;
     status_code := 200; cache_control := 100; data := [Byte.x80] |}.

Definition packed (h : CalculatorHeader) : bytes :=
  match pack h with OK b => b | Raise _ => [] end.

(** A server that answers every request with [some_response]. *)
Definition some_server : Upstream :=
  {| accepts := true; reply := fun _ => packed some_response |}.

(** Inputs of the closed examples. *)
Definition loaded : State Z RandomState := module_loaded [].

Definition serve (payload : bytes) :=
  server_process_request str_of_int pickle_loads pickle_dumps_result
    pickle_dumps_error (request_for payload) 1000 loaded.

Definition three_times_seven : Expression :=
  BinaryExpr (BinaryExpr (const 1) ADD (const 2)) MUL
    (BinaryExpr (const 3) ADD (const 4)).

Definition roll : Expression := FunctionCallExpr RAND [const 1; const 6].

Definition sum_of_negations : Expression :=
  BinaryExpr (UnaryExpr NEG (BinaryExpr (const 1) ADD (const 2))) ADD
    (UnaryExpr NEG (BinaryExpr (const 3) ADD (const 4))).

Definition cached_sum : Cache :=
  {[ (payload_sum, true) := some_response ]}.

Definition no_cache_request : CalculatorHeader :=
  {| unix_time_stamp := 1000; total_length := 13; reserved := 0;
     cache_result := false; show_steps := true; is_request := true;
     status_code := 0; cache_control := 0; data := payload_sum |}.

End Ints.

(** ** Definitions the statements use *)

(** What [__init__] makes of the cache fields. *)
Definition normal_cache_control (cache_result : bool) (cache_control : Z) : Z :=
  if negb (cache_control =? 0) && negb cache_result then 0 else cache_control.

Definition normal_cache_result (cache_result is_request : bool) (cache_control : Z)
  : bool :=
  if negb is_request && (cache_control =? 0) && cache_result then false
  else cache_result.

Definition given_length (total_length : option Z) (data : bytes) : Z :=
  match total_length with
  | None => HEADER_MIN_LENGTH + len data
  | Some n => n
  end.

(** The fields the constructor stores unchecked lie in their widths. *)
Definition fits_wire (h : CalculatorHeader) : Prop :=
  0 <= unix_time_stamp h < 2 ^ 32 /\ 0 <= reserved h < 8
  /\ 0 <= status_code h < 1024 /\ 0 <= cache_control h < 2 ^ 16.

Definition accepted (h : CalculatorHeader) : Prop :=
  exists ts tl r c s q st cc d w,
    CalculatorHeader_init ts tl r c s q st cc d = OK (h, w).

(** The 16-bit field at offset 4, the declared total length. *)
Definition declared_length (buf : bytes) : Z :=
  struct.from_bytes_be (take 2 (drop 4 buf)).

Definition hit (entry : CalculatorHeader) (server_left client_left : seconds)
  : Outcome :=
  {| response := entry; server_time_remaining := server_left;
     client_time_remaining := client_left;
     cache_hit := true; was_stale := false; cached := false |}.

Definition twelve_zero_bytes : bytes := replicate 12 Byte.x00.

(** ** Statements about the store *)

Section StoreSpec.

Context {num RandomState : Type}.

#[local] Abbreviation Expression := (Expression num RandomState).
#[local] Abbreviation State := (State num RandomState).
#[local] Abbreviation M := (M num RandomState).

(** Induction on expressions, with the arguments of a call covered. *)
Fixpoint Expression_ind' (P : Expression -> Prop)
    (HC : forall v, P (Constant v))
    (HN : forall n v, P (NamedConstant n v))
    (HB : forall l op r, P l -> P r -> P (BinaryExpr l op r))
    (HU : forall op x, P x -> P (UnaryExpr op x))
    (HF : forall f args, Forall P args -> P (FunctionCallExpr f args))
    (HO : forall s, P (OtherExpression s))
    (e : Expression) : P e :=
  match e with
  | Constant v => HC v
  | NamedConstant n v => HN n v
  | BinaryExpr l op r =>
      HB l op r (Expression_ind' P HC HN HB HU HF HO l)
        (Expression_ind' P HC HN HB HU HF HO r)
  | UnaryExpr op x => HU op x (Expression_ind' P HC HN HB HU HF HO x)
  | FunctionCallExpr f args =>
      HF f args
        ((fix all (l : list Expression) : Forall P l :=
            match l with
            | [] => List.Forall_nil P
            | x :: l' =>
                List.Forall_cons P x l' (Expression_ind' P HC HN HB HU HF HO x) (all l')
            end) args)
  | OtherExpression s => HO s
  end.

(** The store [H0] after [Δ] was appended to the list at [steps] and
    the lists [F] were made. *)
Definition appended (steps : loc) (Δ : list Expression)
    (H0 F : list (list Expression)) (g : RandomState) : State :=
  {| heap := alter (fun xs => xs ++ Δ) steps H0 ++ F; random := g |}.

Definition with_loc (r : result num) (steps : loc) : result (num * loc) :=
  match r with
  | OK v => OK (v, steps)
  | Raise e => Raise e
  end.

(** A run that ended with [r], having appended [Δ] to the list at
    [steps] of the store [H0], made some lists and left the generator
    in [g']. *)
Definition run_is {A} (p : result A * State) (r : result A) (steps : loc)
    (Δ : list Expression) (H0 : list (list Expression)) (g' : RandomState)
  : Prop :=
  p.1 = r /\ random p.2 = g'
  /\ exists fresh, heap p.2 = alter (fun xs => xs ++ Δ) steps H0 ++ fresh.

(** [calculate] on [expr] does what [steps_of] says. *)
Definition refines (expr : Expression) : Prop :=
  forall steps st r Δ g',
    (steps < length (heap st))%nat ->
    steps_of expr (random st) = (r, Δ, g') ->
    run_is (calculate expr steps st) (with_loc r steps) steps Δ (heap st) g'.

End StoreSpec.
(** ** Definitions the further properties use *)

(** The number of brackets open after [s], starting from [d] open ones;
    [None] when a closing bracket has no partner. *)
Fixpoint bracket_depth (s : string) (d : nat) : option nat :=
  match s with
  | EmptyString => Some d
  | String c s' =>
      if is_char c "(" then bracket_depth s' (S d)
      else if is_char c ")" then
        match d with
        | O => None
        | S d' => bracket_depth s' d'
        end
      else bracket_depth s' d
  end.

(** No round bracket occurs in [s]. *)
Fixpoint bracket_free (s : string) : bool :=
  match s with
  | EmptyString => true
  | String c s' => negb (is_char c "(") && negb (is_char c ")") && bracket_free s'
  end.

(** [keeps s]: the brackets of [s] are balanced wherever [s] stands. *)
Definition keeps (s : string) : Prop := forall d, bracket_depth s d = Some d.

Section Plain.

Context {num RandomState : Type}.
Variable str_of_num : num -> string.

(** An expression whose names, symbols and numbers are written without
    round brackets. *)
Fixpoint plain (e : Expression num RandomState) : Prop :=
  match e with
  | Constant v => bracket_free (str_of_num v) = true
  | NamedConstant n _ => bracket_free n = true
  | BinaryExpr l op r =>
      plain l /\ bracket_free (bin_symbol op) = true /\ plain r
  | UnaryExpr op x => bracket_free (un_symbol op) = true /\ plain x
  | FunctionCallExpr f args =>
      bracket_free (fn_name f) = true
      /\ fold_right (fun arg rest => plain arg /\ rest) True args
  | OtherExpression s => bracket_free s = true
  end.

End Plain.

Section Shape.

Context {num RandomState : Type}.

(** The number of operator and function applications in [expr]. *)
Fixpoint operations (expr : Expression num RandomState) : nat :=
  match expr with
  | BinaryExpr l _ r => S (operations l + operations r)
  | UnaryExpr _ x => S (operations x)
  | FunctionCallExpr _ args =>
      S (fold_right (fun arg n => (operations arg + n)%nat) 0%nat args)
  | _ => 0%nat
  end.

(** Whether a node of [expr] is of none of the five classes
    [calculate] knows. *)
Fixpoint has_unknown (expr : Expression num RandomState) : bool :=
  match expr with
  | BinaryExpr l _ r => has_unknown l || has_unknown r
  | UnaryExpr _ x => has_unknown x
  | FunctionCallExpr _ args => existsb has_unknown args
  | OtherExpression _ => true
  | _ => false
  end.

(** The number of steps a call that returns has appended: none for a
    leaf, otherwise one for every application in the expression and one
    for the value. *)
Definition counted (expr : Expression num RandomState) : Prop :=
  forall g v Δ g',
    steps_of expr g = (OK v, Δ, g') ->
    length Δ = if is_leaf expr then 0%nat else S (operations expr).

End Shape.

(** A response the proxy may keep: marked cacheable, with a nonzero
    cache control. *)
Definition cacheable (h : CalculatorHeader) : Prop :=
  is_request h = false /\ cache_result h = true /\ cache_control h <> 0.

Definition cache_ok (cache : Cache) : Prop :=
  forall key h, cache !! key = Some h -> cacheable h.

(** ** [calculator.py]: calling an operator *)

Section Builders.

Context {num RandomState : Type}.

#[local] Abbreviation Expression := (Expression num RandomState).
#[local] Abbreviation Expr := (Expr num RandomState).


(** [UnaryOperator.__call__] and [Function.__call__] *)
Definition UnaryOperator_call (self : UnaryOperator num) (operand : Expr)
  : Expression :=
  UnaryExpr_init _ _ self operand.

Definition Function_call (self : Function num RandomState) (args : list Expr)
  : Expression :=
  FunctionCallExpr_init _ _ self args.



End Builders.

(** ** [api.py] and [client.py]: reading a response *)

Definition newline : string := String (Ascii.ascii_of_nat 10) EmptyString.

(** The message of an exception, [str(e)]. *)
Definition exn_message (e : exn) : string :=
  match e with
  | ValueError msg | TypeError msg | ZeroDivisionError msg | StructError msg
  | UnpicklingError msg | CalculatorServerError msg | CalculatorClientError msg =>
      msg
  end.

Section Client.

Context {num : Type}.

(** What [pickle.loads] can give back to [data_to_result] and
    [data_to_error]: an instance of [numbers.Real], of [str], of
    [list], of [tuple] or of [Exception], or an object of another
    class, with what [len] gives on it if it has a length. *)
#[warnings="-register-all"]
Inductive pyobject : Type :=
| PyReal (x : num)
| PyStr (s : string)
| PyList (items : list pyobject)
| PyTuple (items : list pyobject)
| PyException (e : exn)
| PyOther (length : option nat).

Variable str_of_num : num -> string.
(** Python's [str] on an object, as an f-string formats it. *)
Variable str_of_object : pyobject -> string.
Variable pickle_loads : bytes -> result pyobject.

(** [len(o)] *)
Definition py_len (o : pyobject) : result nat :=
  match o with
  | PyStr s => OK (String.length s)
  | PyList items | PyTuple items => OK (length items)
  | PyOther (Some n) => OK n
  | _ => Raise (TypeError "object has no len()")
  end.

(** [api.data_to_result]: the [ValueError] raised in the [try] body is
    caught by the last handler and raised again with the same text. *)
Definition data_to_result (header : CalculatorHeader)
  : result (num * list pyobject) :=
  match pickle_loads (data header) with
  | OK (PyTuple [PyReal value; PyList steps]) => OK (value, steps)
  | OK _ => Raise (ValueError "Received data is not a valid result")
  | Raise (UnpicklingError _) =>
      Raise (ValueError "Received data could not be deserialized")
  | Raise _ => Raise (ValueError "Received data is not a valid result")
  end.

(** [api.data_to_error] *)
Definition data_to_error (header : CalculatorHeader) : result exn :=
  match pickle_loads (data header) with
  | OK (PyException error) => OK error
  | OK _ => Raise (ValueError "Received data is not an Exception")
  | Raise (UnpicklingError _) =>
      Raise (ValueError "Received data could not be deserialized")
  | Raise _ => Raise (ValueError "Received data is not an Exception")
  end.

(** [' ' * n] *)
Fixpoint spaces (n : nat) : string :=
  match n with
  | O => EmptyString
  | S k => " " +:+ spaces k
  end.

(** [client.process_response]: what it returns or raises, and the text
    of every [print] it made until then. *)
Definition process_response (response : CalculatorHeader)
  : result unit * list string :=
  if is_request response
  then (Raise (CalculatorClientError "Got a request instead of a response"), [])
  else if status_code response =? STATUS_OK then
    match data_to_result response with
    | Raise e => (Raise e, [])
    | OK (value, steps) =>
        let printed := ["Result: " +:+ str_of_num value +:+ newline] in
        match steps with
        | [] => (OK tt, printed)
        | [_] =>
            (Raise (ValueError "not enough values to unpack (expected at least 2, got 1)"),
             printed ++ ["Steps:" +:+ newline])
        | expr :: first :: rest =>
            let printed :=
              printed
              ++ ["Steps:" +:+ newline;
                  str_of_object expr +:+ " = " +:+ str_of_object first
                  +:+ (if bool_decide (rest = []) then newline else "")] in
            if bool_decide (rest = []) then (OK tt, printed)
            else
              match py_len expr with
              | Raise e => (Raise e, printed)
              | OK n =>
                  (OK tt,
                   printed
                   ++ [String.concat ""
                         (map (fun v => newline +:+ spaces n +:+ " = "
                                        +:+ str_of_object v) rest)
                       +:+ newline])
              end
        end
    end
  else if status_code response =? STATUS_CLIENT_ERROR then
    match data_to_error response with
    | Raise e => (Raise e, [])
    | OK err => (Raise (CalculatorClientError (exn_message err)), [])
    end
  else if status_code response =? STATUS_SERVER_ERROR then
    match data_to_error response with
    | Raise e => (Raise e, [])
    | OK err => (Raise (CalculatorServerError (exn_message err)), [])
    end
  else (Raise (CalculatorClientError "Unknown status code"), []).

End Client.

Arguments pyobject : clear implicits.

(** A payload codec with a decoder, for closed examples: a tag byte,
    then the binary digits of the code of the value. *)
Module Toy.

Fixpoint digits (p : positive) : bytes :=
  match p with
  | xH => []
  | xO q => Byte.x00 :: digits q
  | xI q => Byte.x01 :: digits q
  end.

Fixpoint undigits (bs : bytes) : positive :=
  match bs with
  | [] => xH
  | b :: bs' =>
      if decide (b = Byte.x00) then xO (undigits bs') else xI (undigits bs')
  end.

Definition exn_tag (e : exn) : nat :=
  match e with
  | ValueError _ => 0
  | TypeError _ => 1
  | ZeroDivisionError _ => 2
  | StructError _ => 3
  | UnpicklingError _ => 4
  | CalculatorServerError _ => 5
  | CalculatorClientError _ => 6
  end.

Definition exn_of_tag (tag : nat) (msg : string) : exn :=
  match tag with
  | 0 => ValueError msg
  | 1 => TypeError msg
  | 2 => ZeroDivisionError msg
  | 3 => StructError msg
  | 4 => UnpicklingError msg
  | 5 => CalculatorServerError msg
  | _ => CalculatorClientError msg
  end%nat.

Definition pickle_dumps_result (r : Z * list string) : bytes :=
  Byte.x80 :: digits (encode r).

Definition pickle_dumps_error (e : exn) : bytes :=
  Byte.x81 :: digits (encode (exn_tag e, exn_message e)).

Definition pickle_loads (bs : bytes) : result (pyobject Z) :=
  match bs with
  | [] => Raise (UnpicklingError "Ran out of input")
  | b :: rest =>
      if decide (b = Byte.x80) then
        match decode (undigits rest) with
        | Some (value, steps) => OK (PyTuple [PyReal value; PyList (map PyStr steps)])
        | None => OK (PyOther None)
        end
      else if decide (b = Byte.x81) then
        match decode (undigits rest) with
        | Some (tag, msg) => OK (PyException (exn_of_tag tag msg))
        | None => OK (PyOther None)
        end
      else OK (PyOther None)
  end.

(** [str] on the objects of this codec that are strings or numbers. *)
Definition str_of_object (o : pyobject Z) : string :=
  match o with
  | PyStr s => s
  | PyReal x => Ints.str_of_int x
  | _ => "<object>"
  end.

Definition serve (payload : bytes) :=
  server_process_request Ints.str_of_int Ints.pickle_loads pickle_dumps_result
    pickle_dumps_error (Ints.request_for payload) 1000 Ints.loaded.

End Toy.

(** Further inputs of closed examples. *)
Module Inputs.
Import Ints.

(** A server that refuses every connection. *)
Definition no_server : Upstream :=
  {| accepts := false; reply := fun _ => [] |}.

(** [some_response] with its two padding bytes set. *)
Definition padded_response : bytes :=
  take 10 (packed some_response) ++ [Byte.xff; Byte.xff] ++ [Byte.x80].

Definition unknown_operand : Expression :=
  BinaryExpr (const 1) ADD (UnaryExpr NEG (OtherExpression "Matrix")).

(** The store after an earlier evaluation with the default list. *)
Definition used : State Z RandomState :=
  (calculate_omitted (Expn three_times_seven) loaded).2.

End Inputs.

(** * Properties *)

(** ** Bytes and big-endian fields *)

Lemma Z_of_byte_range (b : byte) : 0 <= Z_of_byte b < 256.
Proof.
  unfold Z_of_byte. pose proof (Byte.to_N_bounded b). lia.
Qed.

Lemma Z_of_byte_of_Z (z : Z) : Z_of_byte (byte_of_Z z) = z mod 256.
Proof.
  unfold Z_of_byte, byte_of_Z.
  assert (Hr : 0 <= z mod 256 < 256) by (apply Z.mod_pos_bound; lia).
  destruct (Byte.of_N (Z.to_N (z mod 256))) as [b|] eqn:E.
  - apply Byte.to_of_N in E. rewrite E. lia.
  - apply Byte.of_N_None_iff in E. lia.
Qed.

Module struct_facts.
Import struct.

Lemma length_to_bytes_be n z : length (to_bytes_be n z) = n.
Proof. induction n; simpl; congruence. Qed.

Lemma fold_to_bytes_be n z acc :
  fold_left (fun a b => a * 256 + Z_of_byte b) (to_bytes_be n z) acc
  = acc * 256 ^ Z.of_nat n + z mod 256 ^ Z.of_nat n.
Proof.
  revert acc. induction n as [|k IH]; intros acc.
  - simpl. rewrite Z.mod_1_r. lia.
  - cbn [to_bytes_be fold_left]. rewrite IH, Z_of_byte_of_Z.
    rewrite Nat2Z.inj_succ, Z.pow_succ_r by lia.
    assert (Hp : 0 < 256 ^ Z.of_nat k) by (apply Z.pow_pos_nonneg; lia).
    rewrite (Z.mul_comm 256 (256 ^ Z.of_nat k)).
    rewrite (Z.rem_mul_r z (256 ^ Z.of_nat k) 256) by lia.
    ring.
Qed.

Lemma from_to_bytes_be n z :
  from_bytes_be (to_bytes_be n z) = z mod 256 ^ Z.of_nat n.
Proof. unfold from_bytes_be. rewrite fold_to_bytes_be. lia. Qed.

Lemma fits_spec bits z : fits bits z = true <-> 0 <= z < 2 ^ bits.
Proof. unfold fits. rewrite andb_true_iff, Z.leb_le, Z.ltb_lt. tauto. Qed.

(** Unpacking what [pack] wrote gives the four fields back. *)
Lemma unpack_pack_fields l h1 h2 h3 rest bs :
  pack l h1 h2 h3 = OK bs ->
  len bs = 12 /\ unpack (take 12 (bs ++ rest)) = OK (l, h1, h2, h3)
  /\ drop 12 (bs ++ rest) = rest.
Proof.
  unfold pack.
  destruct (fits 32 l) eqn:Hl; [|discriminate]. cbn [negb].
  destruct (fits 16 h1) eqn:H1; [|discriminate].
  destruct (fits 16 h2) eqn:H2; [|discriminate].
  destruct (fits 16 h3) eqn:H3; [|discriminate]. cbn [negb andb].
  apply fits_spec in Hl, H1, H2, H3.
  set (b4 := to_bytes_be 4 l). set (b1 := to_bytes_be 2 h1).
  set (b2 := to_bytes_be 2 h2). set (b3 := to_bytes_be 2 h3).
  intros Hbs.
  assert (E : bs = b4 ++ b1 ++ b2 ++ b3 ++ [Byte.x00; Byte.x00]) by congruence.
  clear Hbs. subst bs.
  assert (L4 : length b4 = 4%nat) by apply length_to_bytes_be.
  assert (L1 : length b1 = 2%nat) by apply length_to_bytes_be.
  assert (L2 : length b2 = 2%nat) by apply length_to_bytes_be.
  assert (L3 : length b3 = 2%nat) by apply length_to_bytes_be.
  assert (Hlen : length (b4 ++ b1 ++ b2 ++ b3 ++ [Byte.x00; Byte.x00]) = 12%nat)
    by (rewrite !length_app, L4, L1, L2, L3; reflexivity).
  split; [unfold len; rewrite Hlen; reflexivity|].
  split.
  - rewrite take_app_length' by exact Hlen.
    unfold unpack, len. rewrite Hlen. cbn [Z.of_nat calcsize Z.eqb negb].
    change (negb (Z.of_nat 12 =? 12)) with false. cbn iota.
    rewrite (take_app_length' b4) by exact L4.
    rewrite (drop_app_length' b4) by exact L4.
    rewrite (take_app_length' b1) by exact L1.
    replace (drop 6 (b4 ++ b1 ++ b2 ++ b3 ++ [Byte.x00; Byte.x00]))
      with (b2 ++ b3 ++ [Byte.x00; Byte.x00])
      by (rewrite (app_assoc b4 b1), drop_app_length'; [reflexivity|rewrite length_app; lia]).
    replace (drop 8 (b4 ++ b1 ++ b2 ++ b3 ++ [Byte.x00; Byte.x00]))
      with (b3 ++ [Byte.x00; Byte.x00])
      by (rewrite (app_assoc b4 b1), (app_assoc (b4 ++ b1) b2), drop_app_length';
          [reflexivity|rewrite !length_app; lia]).
    rewrite (take_app_length' b2) by exact L2.
    rewrite (take_app_length' b3) by exact L3.
    subst b4 b1 b2 b3. rewrite !from_to_bytes_be.
    change (256 ^ Z.of_nat 4) with (2 ^ 32). change (256 ^ Z.of_nat 2) with (2 ^ 16).
    rewrite !Z.mod_small by lia. reflexivity.
  - rewrite drop_app_length' by exact Hlen. reflexivity.
Qed.

End struct_facts.

(** ** The flags field *)

Lemma lor_low_bits a lo k :
  0 <= k -> 0 <= lo < 2 ^ k -> Z.lor (a * 2 ^ k) lo = a * 2 ^ k + lo.
Proof.
  intros Hk Hlo.
  pose proof (Z.add_lor_land (a * 2 ^ k) lo) as Hadd.
  enough (Z.land (a * 2 ^ k) lo = 0) by lia.
  apply Z.bits_inj'. intros n Hn.
  rewrite Z.land_spec, Z.bits_0.
  destruct (Z.lt_ge_cases n k) as [Hlt|Hge].
  - rewrite Z.mul_pow2_bits_low by lia. reflexivity.
  - rewrite <- (Z.mod_small lo (2 ^ k)) by lia.
    rewrite Z.mod_pow2_bits_high by lia. apply andb_false_r.
Qed.

Lemma pack_flags_sum r c s q st :
  0 <= st < 1024 ->
  pack_flags r c s q st
  = r * 8192 + Z.b2z c * 4096 + Z.b2z s * 2048 + Z.b2z q * 1024 + st.
Proof.
  intros Hst. unfold pack_flags.
  rewrite !Z.shiftl_mul_pow2 by lia.
  assert (Hc : 0 <= Z.b2z c <= 1) by (destruct c; simpl; lia).
  assert (Hs : 0 <= Z.b2z s <= 1) by (destruct s; simpl; lia).
  assert (Hq : 0 <= Z.b2z q <= 1) by (destruct q; simpl; lia).
  rewrite (lor_low_bits r (Z.b2z c * 2 ^ 12) 13) by lia.
  replace (r * 2 ^ 13 + Z.b2z c * 2 ^ 12)
    with ((r * 2 + Z.b2z c) * 2 ^ 12) by lia.
  rewrite (lor_low_bits _ (Z.b2z s * 2 ^ 11) 12) by lia.
  replace ((r * 2 + Z.b2z c) * 2 ^ 12 + Z.b2z s * 2 ^ 11)
    with ((r * 4 + Z.b2z c * 2 + Z.b2z s) * 2 ^ 11) by lia.
  rewrite (lor_low_bits _ (Z.b2z q * 2 ^ 10) 11) by lia.
  replace ((r * 4 + Z.b2z c * 2 + Z.b2z s) * 2 ^ 11 + Z.b2z q * 2 ^ 10)
    with ((r * 8 + Z.b2z c * 4 + Z.b2z s * 2 + Z.b2z q) * 2 ^ 10) by lia.
  rewrite (lor_low_bits _ st 10) by lia.
  lia.
Qed.

(** [bool(x & (1 << n))] reads bit [n]. *)
Lemma bool_of_int_mask x n :
  0 <= n -> bool_of_int (Z.land x (Z.shiftl 1 n)) = Z.testbit x n.
Proof.
  intros Hn. unfold bool_of_int. rewrite Z.shiftl_1_l.
  assert (E : Z.land x (2 ^ n) = if Z.testbit x n then 2 ^ n else 0).
  { apply Z.bits_inj'. intros m Hm.
    rewrite Z.land_spec, Z.pow2_bits_eqb by lia.
    destruct (Z.eqb_spec n m) as [->|Hne].
    - destruct (Z.testbit x m) eqn:E; rewrite ?Z.pow2_bits_true, ?Z.bits_0 by lia;
        reflexivity.
    - rewrite andb_false_r.
      destruct (Z.testbit x n); rewrite ?Z.pow2_bits_false, ?Z.bits_0 by lia;
        reflexivity. }
  rewrite E. pose proof (Z.pow_pos_nonneg 2 n).
  destruct (Z.testbit x n); [apply negb_true_iff, Z.eqb_neq; lia | reflexivity].
Qed.

Lemma testbit_b2z x n b :
  0 <= n -> (x / 2 ^ n) mod 2 = Z.b2z b -> Z.testbit x n = b.
Proof.
  intros Hn E. rewrite <- Z.testbit_spec' in E by lia.
  destruct (Z.testbit x n), b; simpl in E; congruence.
Qed.

Lemma unpack_pack_flags r c s q st :
  0 <= r < 8 -> 0 <= st < 1024 ->
  unpack_flags (pack_flags r c s q st) = (r, c, s, q, st).
Proof.
  intros Hr Hst. unfold unpack_flags.
  rewrite !bool_of_int_mask by lia.
  rewrite pack_flags_sum by lia.
  assert (Hc : 0 <= Z.b2z c <= 1) by (destruct c; simpl; lia).
  assert (Hs : 0 <= Z.b2z s <= 1) by (destruct s; simpl; lia).
  assert (Hq : 0 <= Z.b2z q <= 1) by (destruct q; simpl; lia).
  set (F := r * 8192 + Z.b2z c * 4096 + Z.b2z s * 2048 + Z.b2z q * 1024 + st).
  rewrite (testbit_b2z F 12 c), (testbit_b2z F 11 s), (testbit_b2z F 10 q);
    try lia.
  - replace (Z.shiftl 1 10 - 1) with (Z.ones 10) by reflexivity.
    replace (Z.shiftl 1 3 - 1) with (Z.ones 3) by reflexivity.
    rewrite !Z.land_ones, Z.shiftr_div_pow2 by lia.
    repeat f_equal; subst F.
    + change (2 ^ 13) with 8192. change (2 ^ 3) with 8.
      Z.div_mod_to_equations. lia.
    + change (2 ^ 10) with 1024. Z.div_mod_to_equations. lia.
  - subst F. change (2 ^ 10) with 1024. Z.div_mod_to_equations. lia.
  - subst F. change (2 ^ 11) with 2048. Z.div_mod_to_equations. lia.
  - subst F. change (2 ^ 12) with 4096. Z.div_mod_to_equations. lia.
Qed.

Lemma pack_flags_range r c s q st :
  0 <= r < 8 -> 0 <= st < 1024 -> 0 <= pack_flags r c s q st < 2 ^ 16.
Proof.
  intros Hr Hst. rewrite pack_flags_sum by lia.
  destruct c, s, q; simpl Z.b2z; lia.
Qed.

(** Every field [unpack_flags] extracts lies in its width. *)
Lemma unpack_flags_range flags r c s q st :
  unpack_flags flags = (r, c, s, q, st) -> 0 <= r < 8 /\ 0 <= st < 1024.
Proof.
  unfold unpack_flags. intros [= <- _ _ _ <-].
  replace (Z.shiftl 1 10 - 1) with (Z.ones 10) by reflexivity.
  replace (Z.shiftl 1 3 - 1) with (Z.ones 3) by reflexivity.
  rewrite !Z.land_ones by lia.
  split; apply Z.mod_pos_bound; reflexivity.
Qed.

(** ** The constructor *)

(** The constructor raises exactly on a total length outside
    [[12, 65536]] or a payload above 65524 bytes, and otherwise stores
    its arguments with the cache fields normalized. *)
Lemma init_inv ts tl r c s q st cc d h w :
  CalculatorHeader_init ts tl r c s q st cc d = OK (h, w) ->
  h = {| unix_time_stamp := ts; total_length := given_length tl d;
         reserved := r; cache_result := normal_cache_result c q cc;
         show_steps := s; is_request := q; status_code := st;
         cache_control := normal_cache_control c cc; data := d |}
  /\ HEADER_MIN_LENGTH <= given_length tl d <= HEADER_MAX_LENGTH
  /\ len d <= HEADER_MAX_DATA_LENGTH.
Proof.
  unfold CalculatorHeader_init, normal_cache_control, normal_cache_result.
  fold (given_length tl d). intros H.
  destruct (HEADER_MIN_LENGTH <=? given_length tl d) eqn:E1; [|discriminate].
  destruct (given_length tl d <=? HEADER_MAX_LENGTH) eqn:E2; [|discriminate].
  cbn [andb negb] in H.
  destruct (len d >? HEADER_MAX_DATA_LENGTH) eqn:E3.
  { revert H. destruct c, q, (cc =? 0); cbn; discriminate. }
  apply Z.leb_le in E1, E2. rewrite Z.gtb_ltb in E3. apply Z.ltb_ge in E3.
  split; [|split; [split|]]; try assumption.
  revert H. destruct c, q, (cc =? 0); cbn; intros [= <- _]; reflexivity.
Qed.

Lemma init_ok ts tl r c s q st cc d :
  HEADER_MIN_LENGTH <= given_length tl d <= HEADER_MAX_LENGTH ->
  len d <= HEADER_MAX_DATA_LENGTH ->
  exists h w, CalculatorHeader_init ts tl r c s q st cc d = OK (h, w).
Proof.
  intros [H1 H2] H3. unfold CalculatorHeader_init. fold (given_length tl d).
  apply Z.leb_le in H1, H2. rewrite H1, H2. cbn [andb negb].
  apply Z.ltb_ge in H3. rewrite Z.gtb_ltb, H3.
  destruct c, q, (cc =? 0); cbn; eauto.
Qed.

Lemma init_warnings ts tl r c s q st cc d h w :
  CalculatorHeader_init ts tl r c s q st cc d = OK (h, w) ->
  (WarnLengthMismatch ∈ w <-> given_length tl d <> HEADER_MIN_LENGTH + len d)
  /\ (WarnRequestStatus ∈ w <-> q = true /\ st <> 0).
Proof.
  unfold CalculatorHeader_init. fold (given_length tl d). intros H.
  destruct (negb _); [discriminate|].
  destruct (len d >? HEADER_MAX_DATA_LENGTH);
    [revert H; destruct c, q, (cc =? 0); cbn; discriminate|].
  assert (Hw : w = warn_if (negb (given_length tl d =? HEADER_MIN_LENGTH + len d))
                     WarnLengthMismatch
                   ++ warn_if (negb (r =? 0)) WarnReservedNotZero
                   ++ warn_if (q && negb (st =? 0)) WarnRequestStatus
                   ++ (if negb (cc =? 0) && negb c then [WarnCacheControlIgnored]
                       else if negb q && (cc =? 0) && c then [WarnResponseNotCached]
                       else [])).
  { revert H. destruct c, q, (cc =? 0); cbn; intros [= _ <-]; reflexivity. }
  subst w. clear H. unfold warn_if.
  destruct (Z.eqb_spec (given_length tl d) (HEADER_MIN_LENGTH + len d));
    destruct (Z.eqb_spec r 0); destruct q; destruct (Z.eqb_spec st 0);
    destruct (Z.eqb_spec cc 0); destruct c; cbn;
    rewrite ?elem_of_cons, ?elem_of_nil; intuition congruence.
Qed.

(** ** Round trip *)

Lemma normal_cache_idem c q cc :
  normal_cache_control (normal_cache_result c q cc) (normal_cache_control c cc)
  = normal_cache_control c cc
  /\ normal_cache_result (normal_cache_result c q cc) q (normal_cache_control c cc)
     = normal_cache_result c q cc.
Proof.
  unfold normal_cache_control, normal_cache_result.
  destruct c, q, (Z.eqb_spec cc 0); cbn; try rewrite Z.eqb_refl; cbn; auto;
    destruct (Z.eqb_spec cc 0); cbn; auto; contradiction.
Qed.

(** Headers the constructor accepted, of total length below [2 ^ 16],
    survive [pack] followed by [unpack]. *)
Lemma unpack_pack (h : CalculatorHeader) :
  accepted h -> fits_wire h -> total_length h < 2 ^ 16 ->
  exists bs, pack h = OK bs /\ unpack bs = OK h.
Proof.
  intros (ts & tl & r & c & s & q & st & cc & d & w & Hinit) Hw Hlen.
  apply init_inv in Hinit as (-> & [Hmin Hmax] & Hdata).
  destruct Hw as (Hts & Hr & Hst & Hcc). cbn in Hts, Hr, Hst, Hcc, Hlen.
  unfold pack. cbn [unix_time_stamp total_length reserved cache_result show_steps
                      is_request status_code cache_control data].
  set (flags := pack_flags r (normal_cache_result c q cc) s q st).
  pose proof (pack_flags_range r (normal_cache_result c q cc) s q st Hr Hst) as Hf.
  fold flags in Hf.
  destruct (struct.pack ts (given_length tl d) flags (normal_cache_control c cc))
    as [prefix|e] eqn:Hp.
  2:{ exfalso. unfold struct.pack in Hp.
      assert (F1 : struct.fits 32 ts = true) by (apply struct_facts.fits_spec; lia).
      assert (F2 : struct.fits 16 (given_length tl d) = true).
      { apply struct_facts.fits_spec. unfold HEADER_MIN_LENGTH, struct.calcsize in Hmin. lia. }
      assert (F3 : struct.fits 16 flags = true) by (apply struct_facts.fits_spec; lia).
      assert (F4 : struct.fits 16 (normal_cache_control c cc) = true)
        by (apply struct_facts.fits_spec; lia).
      rewrite F1, F2, F3, F4 in Hp. discriminate. }
  destruct (struct_facts.unpack_pack_fields _ _ _ _ d _ Hp) as (Hl & Hu & Hd).
  exists (prefix ++ d). split; [reflexivity|].
  unfold unpack, unpack_warn.
  assert (Hlong : (len (prefix ++ d) <? HEADER_MIN_LENGTH) = false).
  { apply Z.ltb_ge. unfold len in *. rewrite length_app.
    unfold HEADER_MIN_LENGTH, struct.calcsize. lia. }
  rewrite Hlong.
  change (Z.to_nat HEADER_MIN_LENGTH) with 12%nat. rewrite Hu, Hd.
  cbn [result_bind]. subst flags. rewrite unpack_pack_flags by lia.
  destruct (init_ok ts (Some (given_length tl d)) r (normal_cache_result c q cc)
              s q st (normal_cache_control c cc) d (conj Hmin Hmax) Hdata)
    as (h' & w' & Hh').
  rewrite Hh'. cbn [result_bind fst]. f_equal.
  apply init_inv in Hh' as (-> & _ & _).
  destruct (normal_cache_idem c q cc) as [-> ->]. reflexivity.
Qed.

(** ** Unpacking arbitrary bytes *)

Ltac header_constants :=
  unfold HEADER_MAX_DATA_LENGTH, HEADER_MAX_LENGTH, HEADER_MIN_LENGTH,
    struct.calcsize in *;
  change (2 ^ 16) with 65536 in *.

Lemma from_bytes_be_range bs :
  0 <= struct.from_bytes_be bs < 256 ^ Z.of_nat (length bs).
Proof.
  unfold struct.from_bytes_be.
  enough (G : forall acc, 0 <= acc ->
            0 <= fold_left (fun a b => a * 256 + Z_of_byte b) bs acc
            < (acc + 1) * 256 ^ Z.of_nat (length bs)).
  { specialize (G 0). lia. }
  induction bs as [|b bs IH]; intros acc Hacc.
  - simpl. lia.
  - cbn [fold_left length]. pose proof (Z_of_byte_range b) as Hb.
    specialize (IH (acc * 256 + Z_of_byte b) ltac:(lia)).
    rewrite Nat2Z.inj_succ, Z.pow_succ_r by lia.
    assert (0 < 256 ^ Z.of_nat (length bs)) by (apply Z.pow_pos_nonneg; lia).
    nia.
Qed.

Lemma declared_length_range buf : 0 <= declared_length buf < 2 ^ 16.
Proof.
  unfold declared_length.
  pose proof (from_bytes_be_range (take 2 (drop 4 buf))) as H.
  assert (Hl : (length (take 2 (drop 4 buf)) <= 2)%nat) by (rewrite length_take; lia).
  assert (256 ^ Z.of_nat (length (take 2 (drop 4 buf))) <= 256 ^ 2)
    by (apply Z.pow_le_mono_r; lia).
  change (2 ^ 16) with (256 ^ 2). lia.
Qed.

(** With at least 12 bytes, [unpack] is the constructor applied to the
    fields of the prefix and to the bytes after it. *)
Lemma unpack_warn_long buf :
  HEADER_MIN_LENGTH <= len buf ->
  exists ts r c s q st cc,
    unpack_warn buf
    = CalculatorHeader_init ts (Some (declared_length buf)) r c s q st cc
        (drop 12 buf).
Proof.
  intros Hlen. unfold unpack_warn.
  assert (E : (len buf <? HEADER_MIN_LENGTH) = false) by (apply Z.ltb_ge; exact Hlen).
  rewrite E. change (Z.to_nat HEADER_MIN_LENGTH) with 12%nat.
  unfold struct.unpack.
  assert (E12 : len (take 12 buf) = struct.calcsize).
  { unfold len in *. rewrite length_take.
    unfold HEADER_MIN_LENGTH, struct.calcsize in *. lia. }
  rewrite E12, Z.eqb_refl. cbn [negb result_bind].
  destruct (unpack_flags _) as [[[[r c] s] q] st] eqn:Hf.
  exists (struct.from_bytes_be (take 4 (take 12 buf))), r, c, s, q, st,
    (struct.from_bytes_be (take 2 (drop 8 (take 12 buf)))).
  unfold declared_length.
  assert (Et : take 2 (drop 4 (take 12 buf)) = take 2 (drop 4 buf)).
  { rewrite (take_drop_commute buf 2 4), (take_drop_commute (take 12 buf) 2 4).
    rewrite take_take. reflexivity. }
  rewrite Et. reflexivity.
Qed.

(** C5: every constructed header satisfies the cache invariants: with
    the cache flag unset [cache_control] is 0 (a nonzero value given with
    the flag unset is zeroed and the construction is not refused on its
    account), and no response has the cache flag set with
    [cache_control] 0 (its flag is cleared). *)
Theorem init_normalizes_cache_fields ts tl r c s q st cc d h w :
  CalculatorHeader_init ts tl r c s q st cc d = OK (h, w) ->
  (cache_result h = false -> cache_control h = 0)
  /\ (is_request h = false -> ~ (cache_result h = true /\ cache_control h = 0))
  /\ (c = false -> cache_result h = false /\ cache_control h = 0)
  /\ (q = false -> c = true -> cc = 0 -> cache_result h = false)
  /\ is_OK (CalculatorHeader_init ts tl r false s q st cc d)
     = is_OK (CalculatorHeader_init ts tl r false s q st 0 d).
Proof.
  intros H. apply init_inv in H as (-> & Hlen & Hdata).
  cbn [cache_result cache_control is_request].
  unfold normal_cache_result, normal_cache_control.
  split; [|split; [|split; [|split]]].
  - destruct c, q, (Z.eqb_spec cc 0); cbn; congruence.
  - destruct c, q, (Z.eqb_spec cc 0); cbn; intuition congruence.
  - intros ->. destruct q, (Z.eqb_spec cc 0); cbn; split; congruence.
  - intros -> -> ->. reflexivity.
  - destruct (init_ok ts tl r false s q st cc d Hlen Hdata) as (h1 & w1 & ->).
    destruct (init_ok ts tl r false s q st 0 d Hlen Hdata) as (h2 & w2 & ->).
    reflexivity.
Qed.

Lemma init_normalizes_cache_fields_witness :
  exists h w,
    CalculatorHeader_init 0 None 0 false true false 200 60 [] = OK (h, w)
    /\ cache_result h = false /\ cache_control h = 0.
Proof.
  eexists _, _. split; [reflexivity|].
  apply (init_normalizes_cache_fields 0 None 0 false true false 200 60 [] _ _ eq_refl).
  reflexivity.
Defined.

(** C9, as the code has it: a request header keeps the status code it
    is constructed with; a nonzero one is warned about and stored.  The
    status code of a header built by [from_request] is 0. *)
Theorem init_request_keeps_status ts tl r c s st cc d h w :
  CalculatorHeader_init ts tl r c s true st cc d = OK (h, w) ->
  is_request h = true /\ status_code h = st
  /\ (st <> 0 <-> WarnRequestStatus ∈ w)
  /\ (forall now d' s' c' cc' h' w',
        from_request now d' s' c' cc' = OK (h', w') ->
        is_request h' = true /\ status_code h' = 0).
Proof.
  intros H. pose proof (init_warnings _ _ _ _ _ _ _ _ _ _ _ H) as [_ Hw].
  apply init_inv in H as (-> & _ & _). cbn [is_request status_code].
  split; [reflexivity|]. split; [reflexivity|]. split; [tauto|].
  intros now d' s' c' cc' h' w' H'. unfold from_request in H'.
  apply init_inv in H' as (-> & _ & _). split; reflexivity.
Qed.

Lemma init_request_keeps_status_witness :
  exists h w,
    CalculatorHeader_init 7 None 0 false false true 404 0 [] = OK (h, w)
    /\ is_request h = true /\ status_code h = 404.
Proof.
  eexists _, _. split; [reflexivity|].
  pose proof (init_request_keeps_status 7 None 0 false false 404 0 [] _ _ eq_refl)
    as (H1 & H2 & _).
  exact (conj H1 H2).
Defined.

(** C9 as stated fails: the constructor accepts a request with status
    code 200 and the header it builds has [is_request] with a nonzero
    [status_code]. *)
Lemma request_with_status_constructed :
  exists h,
    CalculatorHeader_init 0 None 0 false false true 200 0 []
    = OK (h, [WarnRequestStatus])
    /\ is_request h = true /\ status_code h <> 0.
Proof. eexists. split; [reflexivity|]. split; [reflexivity|discriminate]. Qed.

(** C6, as the code has it: [unpack] raises exactly when fewer than 12
    bytes are supplied, or the declared total length is below 12, or more
    than 65536 bytes are supplied.  When it returns, a declared length
    that differs from the number of bytes present was only warned about,
    and the header carries the declared length and the bytes after the
    12-byte prefix. *)
Theorem unpack_raises_iff (buf : bytes) :
  (is_OK (unpack buf) = false <->
     len buf < 12 \/ declared_length buf < 12 \/ 65536 < len buf)
  /\ (forall h w, unpack_warn buf = OK (h, w) ->
        data h = drop 12 buf /\ total_length h = declared_length buf
        /\ (WarnLengthMismatch ∈ w <-> declared_length buf <> len buf)).
Proof.
  assert (Hdrop : HEADER_MIN_LENGTH <= len buf -> len (drop 12 buf) = len buf - 12).
  { unfold len, HEADER_MIN_LENGTH, struct.calcsize. rewrite length_drop. lia. }
  pose proof (declared_length_range buf) as Hdecl.
  destruct (Z.lt_ge_cases (len buf) HEADER_MIN_LENGTH) as [Hshort|Hlong].
  - assert (E : unpack_warn buf
                = Raise (ValueError "The data is too short to be a valid header")).
    { unfold unpack_warn. apply Z.ltb_lt in Hshort. rewrite Hshort. reflexivity. }
    unfold unpack. rewrite E. split.
    + cbn [is_OK result_bind]. unfold HEADER_MIN_LENGTH, struct.calcsize in Hshort.
      tauto.
    + discriminate.
  - destruct (unpack_warn_long buf Hlong) as (ts & r & c & s & q & st & cc & E).
    unfold unpack. rewrite E. specialize (Hdrop Hlong).
    unfold HEADER_MIN_LENGTH, struct.calcsize in Hlong.
    destruct (CalculatorHeader_init ts (Some (declared_length buf)) r c s q st cc
                (drop 12 buf)) as [[h w]|e] eqn:Hinit.
    + pose proof (init_warnings _ _ _ _ _ _ _ _ _ _ _ Hinit) as [Hw _].
      apply init_inv in Hinit as (-> & [Hmin _] & Hdata).
      cbn [given_length] in *.
      header_constants.
      split.
      * cbn [is_OK result_bind]. change (2 ^ 16) with 65536 in *.
        split; [discriminate|]. lia.
      * intros h' w' [= <- <-]. cbn [data total_length].
        split; [reflexivity|]. split; [reflexivity|]. rewrite Hw. lia.
    + split; [|discriminate]. cbn [is_OK result_bind].
      change (2 ^ 16) with 65536 in *. split; [intros _|reflexivity].
      destruct (Z.lt_ge_cases (declared_length buf) 12) as [|Hd]; [tauto|].
      destruct (Z.lt_ge_cases 65536 (len buf)) as [|Hl]; [tauto|].
      exfalso.
      destruct (init_ok ts (Some (declared_length buf)) r c s q st cc (drop 12 buf))
        as (h & w & Hok).
      * cbn [given_length]. header_constants. lia.
      * header_constants. lia.
      * congruence.
Qed.

(** C6 as stated fails: twelve bytes are supplied and [unpack] raises,
    because the total length they declare is 0. *)
Lemma unpack_raises_on_twelve_bytes :
  len twelve_zero_bytes = 12
  /\ unpack twelve_zero_bytes = Raise (ValueError "Invalid total length").
Proof. split; reflexivity. Qed.

(** C1 at the largest payload the constructor allows: [from_request]
    accepts 65524 bytes and sets [total_length] to 65536, which [pack]
    cannot write into the 16-bit field, so there are no bytes to unpack. *)
Theorem pack_raises_at_max_length :
  exists h w,
    from_request 0 (replicate (Z.to_nat 65524) Byte.x00) false false 0 = OK (h, w)
    /\ total_length h = 65536
    /\ pack h = Raise (StructError "'H' format requires 0 <= number <= 65535").
Proof.
  set (payload := replicate (Z.to_nat 65524) Byte.x00).
  assert (Hlen : len payload = 65524).
  { unfold len, payload. rewrite length_replicate. lia. }
  destruct (init_ok 0 None 0 false false true 0 0 payload) as (h & w & Hinit).
  { cbn [given_length]. rewrite Hlen. split; discriminate. }
  { rewrite Hlen. discriminate. }
  exists h, w. split; [exact Hinit|].
  apply init_inv in Hinit as (-> & _ & _).
  cbn [total_length given_length]. rewrite Hlen.
  split; [reflexivity|]. unfold pack.
  cbn [unix_time_stamp total_length reserved cache_result show_steps is_request
         status_code cache_control data given_length].
  reflexivity.
Qed.

(** ** The proxy's cache *)

(** Whatever the server does, [forward] opens a connection first, never
    reports a hit, and sends the packed request once connected. *)
Lemma forward_contacts_server request cache t server stale :
  (exists tr, (forward request cache t server stale).2 = Connect :: tr)
  /\ (forall o, (forward request cache t server stale).1.1 = OK o ->
        cache_hit o = false)
  /\ (forall bs, accepts server = true -> pack request = OK bs ->
        SendAll bs ∈ (forward request cache t server stale).2).
Proof.
  unfold forward.
  destruct (accepts server); cbn [negb].
  2:{ split; [eauto|]. split; [discriminate|]. discriminate. }
  destruct (pack request) as [sent|e].
  2:{ split; [eauto|]. split; [discriminate|]. discriminate. }
  destruct (unpack _) as [resp|e]; cbn.
  2:{ split; [eauto|]. split; [discriminate|].
      intros bs _ [= <-]. set_solver. }
  destruct (is_request resp); cbn.
  { split; [eauto|]. split; [discriminate|]. intros bs _ [= <-]. set_solver. }
  destruct (_ && _); cbn.
  all: split; [eauto|]; split; [intros o [= <-]; reflexivity|];
    intros bs _ [= <-]; set_solver.
Qed.

(** The lookup of lines 29-41, for a request that allows the cache. *)
Lemma lookup_found request cache t1 t2 server entry :
  is_request request = true ->
  cache !! (data request, show_steps request) = Some entry ->
  cache_control request <> 0 ->
  let age := t1 - unix_time_stamp entry in
  let server_left := minus (max_age (cache_control entry)) age in
  let client_left := minus (max_age (cache_control request)) age in
  proxy_process_request request cache t1 t2 server
  = if positive_time server_left && positive_time client_left
    then (OK (hit entry server_left client_left), cache, [])
    else forward request cache t2 server true.
Proof.
  intros Hreq Hlook Hcc. unfold proxy_process_request.
  rewrite Hreq, Hlook. cbn [negb].
  apply Z.eqb_neq in Hcc. rewrite Hcc. reflexivity.
Qed.

Lemma max_age_indefinite : max_age 65535 = Infinite.
Proof. reflexivity. Qed.

Lemma max_age_finite cc : cc <> 65535 -> max_age cc = Finite cc.
Proof.
  intros H. unfold max_age, INDEFINITE, MAX_CACHE_CONTROL.
  change (2 ^ 16 - 1) with 65535. apply Z.eqb_neq in H. rewrite H. reflexivity.
Qed.

(** C2: a request with [cache_control] 0 goes to the server whatever the
    cache holds; an entry with [cache_control] 100 and age 50 answers a
    request with [cache_control] 200 from the cache, no connection being
    opened, with 50 and 150 seconds remaining; and 65535 on either side
    stands for an unbounded age. *)
Theorem cache_lookup_freshness request cache t1 t2 server :
  is_request request = true ->
  let run := proxy_process_request request cache t1 t2 server in
  (cache_control request = 0 ->
     run = forward request cache t2 server false
     /\ (exists tr, run.2 = Connect :: tr)
     /\ (forall o, run.1.1 = OK o -> cache_hit o = false)
     /\ (forall bs, accepts server = true -> pack request = OK bs ->
           SendAll bs ∈ run.2))
  /\ (forall entry,
        cache !! (data request, show_steps request) = Some entry ->
        cache_control entry = 100 -> t1 - unix_time_stamp entry = 50 ->
        cache_control request = 200 ->
        run = (OK (hit entry (Finite 50) (Finite 150)), cache, []))
  /\ (forall entry,
        cache !! (data request, show_steps request) = Some entry ->
        let age := t1 - unix_time_stamp entry in
        (cache_control entry = 65535 -> cache_control request = 65535 ->
           run = (OK (hit entry Infinite Infinite), cache, []))
        /\ (cache_control entry = 65535 -> cache_control request <> 65535 ->
            cache_control request <> 0 -> age < cache_control request ->
            run = (OK (hit entry Infinite (Finite (cache_control request - age))),
                   cache, []))
        /\ (cache_control request = 65535 -> cache_control entry <> 65535 ->
            age < cache_control entry ->
            run = (OK (hit entry (Finite (cache_control entry - age)) Infinite),
                   cache, []))).
Proof.
  intros Hreq run. split; [|split].
  - intros Hcc.
    assert (E : run = forward request cache t2 server false).
    { unfold run, proxy_process_request. rewrite Hreq, Hcc. cbn [negb Z.eqb].
      destruct (cache !! _); reflexivity. }
    split; [exact E|]. rewrite E. apply forward_contacts_server.
  - intros entry Hlook He Hage Hr. unfold run.
    rewrite (lookup_found _ _ _ _ _ entry Hreq Hlook) by lia.
    rewrite He, Hr, Hage. reflexivity.
  - intros entry Hlook age. split; [|split].
    + intros He Hr. unfold run.
      rewrite (lookup_found _ _ _ _ _ entry Hreq Hlook) by lia.
      rewrite He, Hr. reflexivity.
    + intros He Hr Hr0 Hage. unfold run.
      rewrite (lookup_found _ _ _ _ _ entry Hreq Hlook) by exact Hr0.
      rewrite He, max_age_indefinite, (max_age_finite _ Hr).
      cbn [minus positive_time andb]. fold age.
      assert (Hp : (cache_control request - age >? 0) = true) by lia.
      rewrite Hp. reflexivity.
    + intros Hr He Hage. unfold run.
      rewrite (lookup_found _ _ _ _ _ entry Hreq Hlook) by lia.
      rewrite Hr, max_age_indefinite, (max_age_finite _ He).
      cbn [minus positive_time andb]. fold age.
      assert (Hp : (cache_control entry - age >? 0) = true) by lia.
      rewrite Hp. reflexivity.
Qed.

(** C3: [process_request] changes the cache only by storing the
    server's response under [(data, show_steps)], and it does so exactly
    when both cache flags are set and both remainders, taken from the
    response's time stamp, are positive. *)
Theorem cache_store_iff request cache t1 t2 server r cache' tr :
  proxy_process_request request cache t1 t2 server = (r, cache', tr) ->
  match r with
  | Raise _ => cache' = cache
  | OK o =>
      if cache_hit o then cache' = cache /\ cached o = false /\ tr = []
      else
        let age := t2 - unix_time_stamp (response o) in
        let server_left := minus (max_age (cache_control (response o))) age in
        let client_left := minus (max_age (cache_control request)) age in
        let agreed := cache_result request && cache_result (response o)
                      && (positive_time server_left && positive_time client_left) in
        server_time_remaining o = server_left
        /\ client_time_remaining o = client_left
        /\ cached o = agreed
        /\ cache' = (if agreed
                     then <[(data request, show_steps request) := response o]> cache
                     else cache)
  end.
Proof.
  assert (Hf : forall stale,
             forward request cache t2 server stale = (r, cache', tr) ->
             match r with
             | Raise _ => cache' = cache
             | OK o =>
                 cache_hit o = false
                 /\ let age := t2 - unix_time_stamp (response o) in
                    let server_left := minus (max_age (cache_control (response o))) age in
                    let client_left := minus (max_age (cache_control request)) age in
                    let agreed := cache_result request && cache_result (response o)
                                  && (positive_time server_left
                                      && positive_time client_left) in
                    server_time_remaining o = server_left
                    /\ client_time_remaining o = client_left
                    /\ cached o = agreed
                    /\ cache' = (if agreed
                                 then <[(data request, show_steps request) := response o]> cache
                                 else cache)
             end).
  { intros stale. unfold forward.
    destruct (accepts server); cbn [negb]; [|intros [= <- <- <-]; reflexivity].
    destruct (pack request) as [sent|e]; [|intros [= <- <- <-]; reflexivity].
    destruct (unpack _) as [resp|e]; [|intros [= <- <- <-]; reflexivity].
    destruct (is_request resp); [intros [= <- <- <-]; reflexivity|].
    destruct (_ && _) eqn:Hagree; intros [= <- <- <-];
      cbn [cache_hit response server_time_remaining client_time_remaining cached];
      rewrite Hagree; repeat split; reflexivity. }
  assert (Hf' : forall stale,
             forward request cache t2 server stale = (r, cache', tr) ->
             match r with
             | Raise _ => cache' = cache
             | OK o =>
                 if cache_hit o then cache' = cache /\ cached o = false /\ tr = []
                 else
                   let age := t2 - unix_time_stamp (response o) in
                   let server_left := minus (max_age (cache_control (response o))) age in
                   let client_left := minus (max_age (cache_control request)) age in
                   let agreed := cache_result request && cache_result (response o)
                                 && (positive_time server_left
                                     && positive_time client_left) in
                   server_time_remaining o = server_left
                   /\ client_time_remaining o = client_left
                   /\ cached o = agreed
                   /\ cache' = (if agreed
                                then <[(data request, show_steps request) := response o]> cache
                                else cache)
             end).
  { intros stale H. specialize (Hf stale H). destruct r as [o|e]; [|exact Hf].
    destruct Hf as [-> Hf]. exact Hf. }
  unfold proxy_process_request.
  destruct (is_request request); cbn [negb]; [|intros [= <- <- <-]; reflexivity].
  destruct (cache !! _) as [entry|]; [|apply Hf'].
  destruct (negb (cache_control request =? 0)); [|apply Hf'].
  destruct (_ && _); [|apply Hf'].
  intros [= <- <- <-]. cbn. auto.
Qed.

(** ** The evaluator and its store *)

Lemma lookup_app_plus {A} (l1 l2 : list A) (i : nat) :
  (l1 ++ l2) !! (length l1 + i)%nat = l2 !! i.
Proof. induction l1 as [|x l1 IH]; [reflexivity|exact IH]. Qed.

Lemma alter_last {A} (f : A -> A) (F : list A) (x : A) :
  alter f (length F) (F ++ [x]) = F ++ [f x].
Proof.
  rewrite <- (Nat.add_0_r (length F)). apply (alter_app_r f F [x] 0).
Qed.

Lemma lookup_last_made {A} (F F1 : list A) (x : A) :
  ((F ++ [x]) ++ F1) !! length F = Some x.
Proof. rewrite <- app_assoc. apply list_lookup_middle. reflexivity. Qed.

Section EvaluatorFacts.

Context {num RandomState : Type}.

#[local] Abbreviation Expression := (Expression num RandomState).
#[local] Abbreviation State := (State num RandomState).
#[local] Abbreviation M := (M num RandomState).
#[local] Abbreviation appended := (@appended num RandomState).
#[local] Abbreviation with_loc := (@with_loc num).

Lemma bind_OK {A B} (m : M A) (k : A -> M B) st a st' :
  m st = (OK a, st') -> bind m k st = k a st'.
Proof. unfold bind. intros ->. reflexivity. Qed.

Lemma bind_Raise {A B} (m : M A) (k : A -> M B) st e st' :
  m st = (Raise e, st') -> bind m k st = (Raise e, st').
Proof. unfold bind. intros ->. reflexivity. Qed.

Lemma appended_nil steps H0 g :
  {| heap := H0; random := g |} = appended steps [] H0 [] g.
Proof.
  unfold appended. rewrite app_nil_r, list_alter_id; [reflexivity|].
  intros xs. apply app_nil_r.
Qed.

Lemma new_list_appended steps Δ H0 F g :
  new_list (appended steps Δ H0 F g)
  = (OK (length H0 + length F)%nat, appended steps Δ H0 (F ++ [[]]) g).
Proof.
  unfold new_list, appended. cbn [heap random].
  rewrite length_app, length_alter, app_assoc. reflexivity.
Qed.

Lemma list_append_appended steps x Δ H0 F g :
  (steps < length H0)%nat ->
  list_append steps x (appended steps Δ H0 F g)
  = (OK tt, appended steps (Δ ++ [x]) H0 F g).
Proof.
  intros Hlt. unfold list_append, appended. cbn [heap random].
  rewrite alter_app_l by (rewrite length_alter; exact Hlt).
  rewrite list_alter_alter_eq. do 3 f_equal.
  apply list_alter_ext; [|reflexivity].
  intros xs _. cbn. symmetry. apply app_assoc.
Qed.

Lemma for_each_appended {A} (f : A -> Expression) xs steps Δ H0 F g :
  (steps < length H0)%nat ->
  for_each xs (fun step => list_append steps (f step)) (appended steps Δ H0 F g)
  = (OK tt, appended steps (Δ ++ map f xs) H0 F g).
Proof.
  intros Hlt. revert Δ. induction xs as [|x xs IH]; intros Δ.
  - cbn. rewrite app_nil_r. reflexivity.
  - cbn [for_each map].
    rewrite (bind_OK _ _ _ _ _ (list_append_appended steps (f x) Δ H0 F g Hlt)).
    rewrite IH, <- app_assoc. reflexivity.
Qed.

Lemma list_read_appended steps Δ H0 F g k :
  list_read (length H0 + k)%nat (appended steps Δ H0 F g)
  = (OK (default [] (F !! k)), appended steps Δ H0 F g).
Proof.
  unfold list_read, contents, appended. cbn [heap].
  rewrite <- (length_alter (fun xs => xs ++ Δ) H0 steps) at 1.
  rewrite lookup_app_plus. reflexivity.
Qed.

Lemma contents_appended steps Δ H0 F g :
  (steps < length H0)%nat ->
  contents (appended steps Δ H0 F g) steps
  = contents {| heap := H0; random := g |} steps ++ Δ.
Proof.
  intros Hlt. unfold contents, appended. cbn [heap].
  rewrite lookup_app_l by (rewrite length_alter; exact Hlt).
  rewrite list_lookup_alter_eq.
  destruct (lookup_lt_is_Some_2 H0 steps Hlt) as [xs E].
  cbn [heap]. rewrite !E. reflexivity.
Qed.

Lemma call_appended f args steps Δ H0 F g :
  call f args (appended steps Δ H0 F g)
  = ((fn_function f args g).1, appended steps Δ H0 F (fn_function f args g).2).
Proof.
  unfold call, appended. cbn [heap random].
  destruct (fn_function f args g). reflexivity.
Qed.

Lemma run_is_appended {A} (r : result A) steps Δ H0 F g :
  run_is (r, appended steps Δ H0 F g) r steps Δ H0 g.
Proof. repeat split. exists F. reflexivity. Qed.

(** The same for a call on a list made since [H0]. *)
Lemma refines_fresh expr steps Δ H0 F g k r Δe g' :
  refines expr -> (k < length F)%nat ->
  steps_of expr g = (r, Δe, g') ->
  exists F',
    calculate expr (length H0 + k)%nat (appended steps Δ H0 F g)
    = (with_loc r (length H0 + k)%nat,
       appended steps Δ H0 (alter (fun xs => xs ++ Δe) k F ++ F') g').
Proof.
  intros Href Hk Hs.
  destruct (Href (length H0 + k)%nat (appended steps Δ H0 F g) r Δe g')
    as (H1 & H2 & F' & H3).
  - unfold appended. cbn [heap]. rewrite length_app, length_alter. lia.
  - exact Hs.
  - exists F'.
    destruct (calculate expr (length H0 + k)%nat (appended steps Δ H0 F g))
      as [r' st'].
    cbn [fst snd] in *. subst r'. f_equal.
    destruct st' as [H' gg]. unfold appended in *. cbn [heap random] in *.
    subst gg. f_equal. rewrite H3.
    rewrite <- (length_alter (fun xs => xs ++ Δ) H0 steps) at 1.
    rewrite alter_app_r, app_assoc. reflexivity.
Qed.

Ltac run H :=
  first [rewrite (bind_OK _ _ _ _ _ H) | rewrite (bind_Raise _ _ _ _ _ H)];
  cbn beta iota.

Lemma call_shown (f : Function num RandomState) (args : list num)
    (step : Expression) (rest : list Expression) :
  FunctionCallExpr_init _ _ f (map Real args ++ [Expn step] ++ map Expn rest)
  = FunctionCallExpr f (map Constant args ++ [step] ++ rest).
Proof.
  unfold FunctionCallExpr_init. rewrite !map_app, !map_map. cbn [map type_fallback].
  rewrite map_id. reflexivity.
Qed.

Lemma call_values (f : Function num RandomState) (args : list num) :
  FunctionCallExpr_init _ _ f (map Real args)
  = (FunctionCallExpr f (map Constant args) : Expression).
Proof. unfold FunctionCallExpr_init. rewrite map_map. reflexivity. Qed.

(** The loop over the arguments does what [args_steps] says. *)
Lemma calculate_args_appended f expr_args steps H0 rest :
  Forall refines rest -> (steps < length H0)%nat ->
  forall args Δ F g r Δl g',
    args_steps steps_of f expr_args rest args g = (r, Δl, g') ->
    exists F',
      calculate_args calculate f expr_args steps rest args (appended steps Δ H0 F g)
      = (r, appended steps (Δ ++ Δl) H0 (F ++ F') g').
Proof.
  intros Hall Hlt.
  induction Hall as [|x rest Hx Hrest IH]; intros args Δ F g r Δl g' Hs.
  - cbn in Hs. injection Hs as <- <- <-. exists [].
    cbn. rewrite !app_nil_r. reflexivity.
  - cbn [args_steps] in Hs. cbn [calculate_args].
    destruct (steps_of x g) as [[rx xs] g1] eqn:Ex.
    run (new_list_appended steps Δ H0 F g).
    destruct (refines_fresh x steps Δ H0 (F ++ [[]]) g (length F) rx xs g1 Hx)
      as [F1 E1]; [rewrite length_app; cbn; lia|exact Ex|].
    rewrite alter_last in E1. cbn [app] in E1.
    destruct rx as [v|e]; cbn [with_loc] in E1.
    + run E1.
      run (list_read_appended steps Δ H0 ((F ++ [xs]) ++ F1) g1 (length F)).
      rewrite lookup_last_made. cbn [default from_option id].
      erewrite bind_OK by (apply for_each_appended; exact Hlt).
      destruct (args_steps steps_of f expr_args rest (args ++ [v]) g1)
        as [[r2 later] g2] eqn:E2.
      injection Hs as <- <- <-.
      destruct (IH _ (Δ ++ map (fun step : Expression =>
                 FunctionCallExpr_init _ _ f
                   (map Real args ++ [Expn step]
                    ++ map Expn (drop (length args + 1) expr_args)))
                 (all_but_last xs)) ((F ++ [xs]) ++ F1) _ _ _ _ E2) as [F2 EF2].
      rewrite EF2. exists ([xs] ++ F1 ++ F2). f_equal.
      rewrite <- !app_assoc. do 3 f_equal.
      apply map_ext. intros step. apply call_shown.
    + run E1. injection Hs as <- <- <-.
      exists ([xs] ++ F1). rewrite <- !app_assoc, app_nil_r. reflexivity.
Qed.

(** [calculate] does what [steps_of] says, on every expression. *)
Theorem calculate_refines (expr : Expression) : refines expr.
Proof.
  induction expr as [v|n v|l op r IHl IHr|op x IHx|f args IHargs|s]
    using Expression_ind';
    intros steps [H0 g] res Δ g' Hlt Hs; cbn [heap random] in *;
    rewrite (appended_nil steps H0 g).
  - injection Hs as <- <- <-. apply (run_is_appended (A := num * loc)).
  - injection Hs as <- <- <-. apply (run_is_appended (A := num * loc)).
  - cbn [steps_of] in Hs. cbn [calculate].
    destruct (steps_of l g) as [[rl xs] g1] eqn:El.
    run (new_list_appended steps [] H0 [] g).
    run (new_list_appended steps [] H0 ([] ++ [[]]) g).
    cbn [app length].
    destruct (refines_fresh l steps [] H0 [[]; []] g 0 rl xs g1 IHl)
      as [F1 E1]; [cbn; lia|exact El|].
    cbn in E1.
    destruct rl as [left'|e]; cbn [with_loc] in E1.
    2:{ run E1. injection Hs as <- <- <-. apply run_is_appended. }
    run E1.
    run (list_read_appended steps [] H0 ([xs; []] ++ F1) g1 0).
    cbn [lookup list_lookup app default from_option id].
    erewrite bind_OK by (apply for_each_appended; exact Hlt).
    destruct (steps_of r g1) as [[rr ys] g2] eqn:Er.
    destruct (refines_fresh r steps
                ([] ++ map (fun step : Expression =>
                    BinaryExpr_init _ _ (Expn step) op (Expn r)) (all_but_last xs))
                H0 ([xs; []] ++ F1) g1 1 rr ys g2 IHr)
      as [F2 E2]; [cbn; lia|exact Er|].
    cbn in E2.
    destruct rr as [right'|e]; cbn [with_loc] in E2.
    2:{ run E2. injection Hs as <- <- <-. apply run_is_appended. }
    run E2.
    run (list_read_appended steps
           (map (fun step : Expression => BinaryExpr step op r) (all_but_last xs))
           H0 (xs :: ys :: F1 ++ F2) g2 1).
    cbn [lookup list_lookup app default from_option id].
    erewrite bind_OK by (apply for_each_appended; exact Hlt).
    erewrite bind_OK by (apply list_append_appended; exact Hlt).
    unfold lift at 1.
    destruct (bin_function op left' right') as [value|e].
    2:{ rewrite (bind_Raise _ _ _ e _ eq_refl). injection Hs as <- <- <-.
        rewrite <- !app_assoc. apply run_is_appended. }
    rewrite (bind_OK _ _ _ value _ eq_refl).
    erewrite bind_OK by (apply list_append_appended; exact Hlt).
    injection Hs as <- <- <-. rewrite <- !app_assoc. apply run_is_appended.
  - cbn [steps_of] in Hs. cbn [calculate].
    destruct (steps_of x g) as [[rx xs] g1] eqn:Ex.
    run (new_list_appended steps [] H0 [] g).
    cbn [app length].
    destruct (refines_fresh x steps [] H0 [[]] g 0 rx xs g1 IHx)
      as [F1 E1]; [cbn; lia|exact Ex|].
    cbn in E1.
    destruct rx as [operand'|e]; cbn [with_loc] in E1.
    2:{ run E1. injection Hs as <- <- <-. apply run_is_appended. }
    run E1.
    run (list_read_appended steps [] H0 ([xs] ++ F1) g1 0).
    cbn [lookup list_lookup app default from_option id].
    erewrite bind_OK by (apply for_each_appended; exact Hlt).
    erewrite bind_OK by (apply list_append_appended; exact Hlt).
    unfold lift at 1.
    destruct (un_function op operand') as [value|e].
    2:{ rewrite (bind_Raise _ _ _ e _ eq_refl). injection Hs as <- <- <-.
        apply run_is_appended. }
    rewrite (bind_OK _ _ _ value _ eq_refl).
    erewrite bind_OK by (apply list_append_appended; exact Hlt).
    injection Hs as <- <- <-. rewrite <- !app_assoc. apply run_is_appended.
  - cbn [steps_of] in Hs. cbn [calculate].
    destruct (args_steps steps_of f args args [] g) as [[ra shown] g1] eqn:Ea.
    destruct (calculate_args_appended f args steps H0 args IHargs Hlt
                [] [] [] g ra shown g1 Ea) as [F1 E1].
    cbn [app] in E1.
    destruct ra as [vals|e].
    2:{ run E1. injection Hs as <- <- <-. apply run_is_appended. }
    run E1.
    erewrite bind_OK by (apply list_append_appended; exact Hlt).
    rewrite call_values.
    pose proof (call_appended f vals steps
                  (shown ++ [FunctionCallExpr f (map Constant vals)]) H0 F1 g1) as Ec.
    destruct (fn_function f vals g1) as [[value|e] g2]; cbn [fst snd] in Ec.
    2:{ run Ec. injection Hs as <- <- <-. apply run_is_appended. }
    run Ec.
    erewrite bind_OK by (apply list_append_appended; exact Hlt).
    injection Hs as <- <- <-. apply (run_is_appended (A := num * loc)).
  - injection Hs as <- <- <-. apply (run_is_appended (A := num * loc)).
Qed.

End EvaluatorFacts.

Section EvaluatorClaims.

Context {num RandomState : Type}.

#[local] Abbreviation Expression := (Expression num RandomState).
#[local] Abbreviation State := (State num RandomState).

(** What a call leaves in the list it was given. *)
Lemma calculate_contents (expr : Expression) steps (st : State) r' st' :
  (steps < length (heap st))%nat ->
  calculate expr steps st = (r', st') ->
  exists r Δ,
    steps_of expr (random st) = (r, Δ, random st')
    /\ r' = with_loc r steps
    /\ contents st' steps = contents st steps ++ Δ
    /\ (length (heap st) <= length (heap st'))%nat.
Proof.
  intros Hlt Hrun.
  destruct (steps_of expr (random st)) as [[r Δ] g'] eqn:Hs.
  destruct (calculate_refines expr steps st r Δ g' Hlt Hs) as (H1 & H2 & F & H3).
  rewrite Hrun in H1, H2, H3. cbn [fst snd] in *. subst g' r'.
  exists r, Δ. split; [reflexivity|]. split; [reflexivity|].
  destruct st as [H0 g], st' as [H' g']. cbn [heap random] in *. subst H'.
  split.
  - apply (contents_appended steps Δ H0 F g' Hlt).
  - rewrite length_app, length_alter. lia.
Qed.

(** A call on anything but a leaf that returns has appended the
    value last. *)
Lemma steps_of_ends_with_value (expr : Expression) g v Δ g' :
  is_leaf expr = false ->
  steps_of expr g = (OK v, Δ, g') ->
  exists Δ', Δ = Δ' ++ [Constant v].
Proof.
  intros Hleaf Hs. destruct expr as [c|n c|l op r|op x|f args|s];
    try discriminate; cbn [steps_of] in Hs.
  - destruct (steps_of l g) as [[[left'|e] xs] g1]; [|discriminate].
    destruct (steps_of r g1) as [[[right'|e] ys] g2]; [|discriminate].
    destruct (bin_function op left' right'); [|discriminate].
    injection Hs as <- <- <-. eauto.
  - destruct (steps_of x g) as [[[operand'|e] xs] g1]; [|discriminate].
    destruct (un_function op operand'); [|discriminate].
    injection Hs as <- <- <-. eauto.
  - destruct (args_steps steps_of f args args [] g) as [[[vals|e] shown] g1];
      [|discriminate].
    destruct (fn_function f vals g1) as [[value|e] g2]; [|discriminate].
    injection Hs as <- <- <-. eauto.
Qed.

Lemma steps_of_leaf (expr : Expression) g :
  is_leaf expr = true -> exists v, steps_of expr g = (OK v, [], g).
Proof. destruct expr; try discriminate; intros _; cbn; eauto. Qed.

(** C4, as the code has it: when [calculate] returns on an expression
    that is not a [Constant] or a [NamedConstant], the list it returns
    is the one it was given, is not empty, and ends with
    [Constant value] for the value returned; on a [Constant] or a
    [NamedConstant] it appends nothing. *)
Theorem last_step_is_value (expr : Expression) steps (st : State) value l st' :
  (steps < length (heap st))%nat ->
  calculate expr steps st = (OK (value, l), st') ->
  l = steps
  /\ (is_leaf expr = false ->
      contents st' l <> [] /\ last (contents st' l) = Some (Constant value))
  /\ (is_leaf expr = true -> contents st' l = contents st steps).
Proof.
  intros Hlt Hrun.
  destruct (calculate_contents expr steps st _ _ Hlt Hrun)
    as (r & Δ & Hs & Hr & Hc & _).
  destruct r as [v|e]; [|discriminate]. injection Hr as -> ->.
  split; [reflexivity|]. split.
  - intros Hleaf.
    destruct (steps_of_ends_with_value expr _ _ _ _ Hleaf Hs) as [Δ' ->].
    rewrite Hc, app_assoc. split.
    + intros E. apply app_eq_nil in E as [_ E]. discriminate.
    + apply last_snoc.
  - intros Hleaf. destruct (steps_of_leaf expr (random st) Hleaf) as [v' Hs'].
    rewrite Hs in Hs'. injection Hs' as _ -> _. rewrite Hc. apply app_nil_r.
Qed.

Lemma calculate_fresh_returned (expression : Expr num RandomState) (st : State) :
  exists r Δ,
    steps_of (type_fallback expression) (random st)
    = (r, Δ, random (calculate_fresh expression st).2)
    /\ returned (calculate_fresh expression st)
       = match r with OK v => OK (v, Δ) | Raise e => Raise e end.
Proof.
  unfold calculate_fresh, bind, new_list.
  set (st1 := {| heap := heap st ++ [[]]; random := random st |}).
  destruct (calculate (type_fallback expression) (length (heap st)) st1)
    as [r' st'] eqn:Hrun.
  assert (Hlt : (length (heap st) < length (heap st1))%nat)
    by (unfold st1; cbn [heap]; rewrite length_app; cbn; lia).
  destruct (calculate_contents _ _ st1 _ _ Hlt Hrun) as (r & Δ & Hs & Hr & Hc & _).
  exists r, Δ. cbn [snd]. split; [exact Hs|].
  unfold returned. cbn [fst snd]. subst r'.
  destruct r as [v|e]; cbn [with_loc]; [|reflexivity].
  rewrite Hc. unfold contents at 1, st1. cbn [heap].
  rewrite <- (Nat.add_0_r (length (heap st))), lookup_app_plus. reflexivity.
Qed.

Lemma args_steps_generator_free f expr_args (rest : list Expression) :
  Forall generator_free rest ->
  forall args, exists r Δ,
    forall g, args_steps steps_of f expr_args rest args g = (r, Δ, g).
Proof.
  induction 1 as [|x rest (rx & xs & Hx) _ IH]; intros args.
  - exists (OK args), []. reflexivity.
  - destruct rx as [v|e].
    + destruct (IH (args ++ [v])) as (r & later & Hrest).
      eexists r, _. intros g. cbn [args_steps]. rewrite Hx, Hrest. reflexivity.
    + exists (Raise e), []. intros g. cbn [args_steps]. rewrite Hx. reflexivity.
Qed.

Lemma no_random_generator_free (expr : Expression) :
  no_random expr -> generator_free expr.
Proof.
  induction expr as [v|n v|l op r IHl IHr|op x IHx|f args IHargs|s]
    using Expression_ind'; intros Hno; cbn [no_random] in Hno.
  - exists (OK v), []. reflexivity.
  - exists (OK v), []. reflexivity.
  - destruct Hno as [Hl Hr].
    destruct (IHl Hl) as ([left'|e] & xs & El);
      [|exists (Raise e), []; intros g; cbn [steps_of]; rewrite El; reflexivity].
    destruct (IHr Hr) as ([right'|e] & ys & Er);
      [|eexists (Raise e), _; intros g; cbn [steps_of]; rewrite El, Er; reflexivity].
    destruct (bin_function op left' right') as [value|e] eqn:Ef.
    + eexists (OK value), _. intros g. cbn [steps_of]. rewrite El, Er, Ef. reflexivity.
    + eexists (Raise e), _. intros g. cbn [steps_of]. rewrite El, Er, Ef. reflexivity.
  - destruct (IHx Hno) as ([operand'|e] & xs & Ex);
      [|exists (Raise e), []; intros g; cbn [steps_of]; rewrite Ex; reflexivity].
    destruct (un_function op operand') as [value|e] eqn:Ef.
    + eexists (OK value), _. intros g. cbn [steps_of]. rewrite Ex, Ef. reflexivity.
    + eexists (Raise e), _. intros g. cbn [steps_of]. rewrite Ex, Ef. reflexivity.
  - destruct Hno as [[p Hp] Hargs].
    assert (Hall : Forall generator_free args).
    { clear Hp. induction IHargs as [|x rest Hx _ IH]; [constructor|].
      cbn [fold_right] in Hargs. destruct Hargs as [Hx' Hrest].
      constructor; [exact (Hx Hx')|exact (IH Hrest)]. }
    destruct (args_steps_generator_free f args args Hall []) as ([vals|e] & shown & Ea);
      [|eexists (Raise e), _; intros g; cbn [steps_of]; rewrite Ea; reflexivity].
    destruct (p vals) as [value|e] eqn:Ef.
    + eexists (OK value), _. intros g. cbn [steps_of]. rewrite Ea, Hp, Ef. reflexivity.
    + eexists (Raise e), _. intros g. cbn [steps_of]. rewrite Ea, Hp, Ef. reflexivity.
  - eexists _, _. reflexivity.
Qed.

(** C10, as the code has it: the list bound to the default of [steps]
    is one object.  Two successive calls that omit [steps], on an
    expression that is not a leaf, return that same list, longer after
    the second call and with what the first call returned as a prefix.
    A call that passes a fresh list returns a value and steps that
    depend on the expression and on the state of the random generator
    only, whatever earlier calls left in the store; they are the same
    from every state when the expression has no call of [rand]. *)
Theorem default_steps_accumulate (expression : Expr num RandomState) (st : State) :
  (calculate_defaults < length (heap st))%nat ->
  (is_leaf (type_fallback expression) = false ->
   forall v1 l1 st1 v2 l2 st2,
     calculate_omitted expression st = (OK (v1, l1), st1) ->
     calculate_omitted expression st1 = (OK (v2, l2), st2) ->
     l1 = calculate_defaults /\ l2 = calculate_defaults
     /\ (length (contents st1 l1) < length (contents st2 l2))%nat
     /\ contents st1 l1 `prefix_of` contents st2 l2)
  /\ (forall st' : State,
        random st' = random st ->
        returned (calculate_fresh expression st')
        = returned (calculate_fresh expression st)
        /\ random (calculate_fresh expression st').2
           = random (calculate_fresh expression st).2)
  /\ (no_random (type_fallback expression) ->
      forall st' : State,
        returned (calculate_fresh expression st')
        = returned (calculate_fresh expression st)).
Proof.
  intros Hwf. split; [|split].
  - intros Hleaf v1 l1 st1 v2 l2 st2 H1 H2. unfold calculate_omitted in *.
    destruct (calculate_contents _ _ _ _ _ Hwf H1) as (r1 & Δ1 & Hs1 & Hr1 & Hc1 & Hg1).
    assert (Hwf1 : (calculate_defaults < length (heap st1))%nat) by lia.
    destruct (calculate_contents _ _ _ _ _ Hwf1 H2) as (r2 & Δ2 & Hs2 & Hr2 & Hc2 & _).
    destruct r1 as [w1|e]; [|discriminate]. injection Hr1 as -> ->.
    destruct r2 as [w2|e]; [|discriminate]. injection Hr2 as -> ->.
    destruct (steps_of_ends_with_value _ _ _ _ _ Hleaf Hs2) as [Δ' ->].
    split; [reflexivity|]. split; [reflexivity|].
    rewrite Hc2. split.
    + rewrite !length_app. cbn. lia.
    + apply prefix_app_r. reflexivity.
  - intros st' Hg.
    destruct (calculate_fresh_returned expression st) as (r & Δ & Hs & Hr).
    destruct (calculate_fresh_returned expression st') as (r' & Δ' & Hs' & Hr').
    rewrite Hg, Hs in Hs'. injection Hs' as <- <- E.
    split; [congruence|]. symmetry. exact E.
  - intros Hno st'.
    destruct (no_random_generator_free _ Hno) as (r0 & Δ0 & Hfree).
    destruct (calculate_fresh_returned expression st) as (r & Δ & Hs & Hr).
    destruct (calculate_fresh_returned expression st') as (r' & Δ' & Hs' & Hr').
    rewrite Hfree in Hs, Hs'. injection Hs as <- <- _. injection Hs' as <- <- _.
    congruence.
Qed.

End EvaluatorClaims.

(** ** The server's answer to a failed evaluation *)

Section ServerClaims.

Context {num RandomState : Type}.
Variable str_of_num : num -> string.
Variable pickle_loads : bytes -> result (@unpickled num RandomState).
Variable pickle_dumps_result : num * list string -> bytes.
Variable pickle_dumps_error : exn -> bytes.

#[local] Abbreviation State := (State num RandomState).
#[local] Abbreviation process_request :=
  (server_process_request str_of_num pickle_loads pickle_dumps_result
     pickle_dumps_error).

Lemma from_error_status now e status c cc h :
  from_error pickle_dumps_error now e status c cc = OK h ->
  status_code h = status /\ is_request h = false.
Proof.
  unfold from_error, header_only, from_response. intros H.
  destruct (CalculatorHeader_init _ _ _ _ _ _ _ _ _) as [[h' w]|] eqn:Hi;
    [|discriminate].
  injection H as <-. apply init_inv in Hi as (-> & _ & _). split; reflexivity.
Qed.

(** C8, as the code has it: whatever exception the evaluation of a
    request's expression raises, a division by zero as much as an
    unknown kind of node, [process_request] answers with [from_error]
    and the status code 400; it builds no response with a 5xx code
    from it. *)
Theorem evaluation_error_is_client_error request now (st : State) expr e st' :
  is_request request = true ->
  data_to_expression pickle_loads request = OK expr ->
  calculate expr (length (heap st)) (new_list st).2 = (Raise e, st') ->
  process_request request now st
  = (from_error pickle_dumps_error now e STATUS_CLIENT_ERROR CACHE_POLICY
       CACHE_CONTROL, st')
  /\ (forall h, (process_request request now st).1 = OK h ->
        status_code h = 400 /\ is_request h = false)
  /\ (len (pickle_dumps_error e) <= HEADER_MAX_DATA_LENGTH ->
      exists h, (process_request request now st).1 = OK h).
Proof.
  intros Hreq Hexpr Hcalc.
  assert (E : process_request request now st
              = (from_error pickle_dumps_error now e STATUS_CLIENT_ERROR
                   CACHE_POLICY CACHE_CONTROL, st')).
  { unfold server_process_request, bind at 1. cbn [new_list].
    unfold process_request_try. rewrite Hreq.
    unfold bind, lift. rewrite Hexpr. cbn [new_list snd] in Hcalc.
    rewrite Hcalc. reflexivity. }
  split; [exact E|]. rewrite E. cbn [fst]. split.
  - intros h Hh. apply from_error_status in Hh. exact Hh.
  - intros Hlen. unfold from_error, header_only, from_response.
    destruct (init_ok now None 0 CACHE_POLICY false false STATUS_CLIENT_ERROR
                CACHE_CONTROL (pickle_dumps_error e)) as (h & w & Hi).
    + cbn [given_length]. header_constants. unfold len in *. lia.
    + exact Hlen.
    + rewrite Hi. eauto.
Qed.

End ServerClaims.

(** ** Closed examples *)

Module Examples.
Import Ints.

(** C8 as stated fails: for a node of unknown kind [calculate] raises
    its [TypeError], and the response carries the status code 400. *)
Lemma unknown_kind_answered_with_400 :
  process_request_try pickle_loads (request_for payload_unknown_kind) 1%nat
    (new_list loaded).2
  = (Raise (TypeError "Unknown expression type"), (new_list loaded).2)
  /\ exists h, (serve payload_unknown_kind).1 = OK h /\ status_code h = 400.
Proof. split; [reflexivity|]. eexists. split; reflexivity. Qed.

Lemma evaluation_error_is_client_error_witness :
  exists h, (serve payload_modulo_zero).1 = OK h /\ status_code h = 400.
Proof.
  eexists. split; [reflexivity|].
  eapply (evaluation_error_is_client_error str_of_int pickle_loads
            pickle_dumps_result pickle_dumps_error
            (request_for payload_modulo_zero) 1000 loaded
            (BinaryExpr (const 1) MOD (const 0))
            (ZeroDivisionError "integer modulo by zero")).
  - reflexivity.
  - reflexivity.
  - reflexivity.
  - reflexivity.
Defined.

(** C4 as stated fails: on a bare constant the list returned is
    empty. *)
Lemma constant_has_no_steps :
  returned (calculate_fresh (Expn (const 5)) loaded) = OK (5, []).
Proof. reflexivity. Qed.

Lemma last_step_is_value_witness :
  exists st',
    calculate three_times_seven 0 loaded = (OK (21, 0%nat), st')
    /\ last (contents st' 0) = Some (Constant 21).
Proof.
  eexists. split; [reflexivity|].
  apply (last_step_is_value three_times_seven 0 loaded 21 0%nat _
           Nat.lt_0_1 eq_refl).
  reflexivity.
Defined.

(** C10 as stated fails: two calls with a fresh list on the same
    [rand(1, 6)] return different values. *)
Lemma fresh_calls_differ :
  let first := calculate_fresh (Expn roll) (module_loaded [2; 5]) in
  let second := calculate_fresh (Expn roll) first.2 in
  returned first = OK (2, [FunctionCallExpr RAND [const 1; const 6]; Constant 2])
  /\ returned second
     = OK (5, [FunctionCallExpr RAND [const 1; const 6]; Constant 5]).
Proof. split; reflexivity. Qed.

Lemma default_steps_accumulate_witness :
  let first := calculate_omitted (Expn three_times_seven) loaded in
  let second := calculate_omitted (Expn three_times_seven) first.2 in
  (length (contents first.2 0) < length (contents second.2 0))%nat
  /\ contents first.2 0 `prefix_of` contents second.2 0.
Proof.
  intros first second.
  destruct (default_steps_accumulate (Expn three_times_seven) loaded
              Nat.lt_0_1) as [H _].
  specialize (H eq_refl 21 0%nat first.2 21 0%nat second.2 eq_refl eq_refl).
  exact (proj2 (proj2 H)).
Defined.

(** C7: the pass is not idempotent on ["((a))"]: one application
    leaves ["(a)"], from which a second one removes the brackets. *)
Theorem strip_brackets_twice :
  strip_brackets "((a))" = OK "(a)"
  /\ strip_brackets "(a)" = OK "a"
  /\ stringify str_of_int (Expn (NamedConstant "((a))" 0 : Expression)) false
     = OK "(a)".
Proof. repeat split. Qed.

(** The same defect on an expression the builders make: the second
    removal uses positions of the string before the first removal. *)
Lemma stringify_sum_of_negations :
  str_brackets str_of_int sum_of_negations true = "(-((1 + 2)) + -((3 + 4)))"
  /\ stringify str_of_int (Expn sum_of_negations) true
     = OK "(-(1 + 2) + -(( + 4))"
  /\ strip_brackets "(-(1 + 2) + -(( + 4))"
     = Raise (ValueError "Unmatched opening bracket").
Proof. repeat split. Qed.

(** Another header of total length 65536 the constructor accepts and
    [pack] refuses. *)
Lemma pack_raises_at_declared_max :
  exists h,
    CalculatorHeader_init 0 (Some 65536) 0 false false true 0 0 []
    = OK (h, [WarnLengthMismatch])
    /\ pack h = Raise (StructError "'H' format requires 0 <= number <= 65535").
Proof. eexists. split; reflexivity. Qed.

(** Round trip of a response. *)
Lemma unpack_pack_some_response :
  unpack (packed some_response) = OK some_response.
Proof. reflexivity. Qed.

Lemma cache_lookup_freshness_witness :
  exists tr,
    (proxy_process_request no_cache_request cached_sum 1050 1050 some_server).2
    = Connect :: tr.
Proof.
  destruct (cache_lookup_freshness no_cache_request cached_sum 1050 1050
              some_server eq_refl) as [H _].
  destruct (H eq_refl) as (_ & Htr & _). exact Htr.
Defined.

Lemma cache_store_iff_witness :
  exists o tr,
    proxy_process_request (request_for payload_sum) ∅ 1010 1020 some_server
    = (OK o, <[(payload_sum, true) := some_response]> ∅, tr)
    /\ cached o = true.
Proof.
  eexists _, _. split; [reflexivity|].
  pose proof (cache_store_iff (request_for payload_sum) ∅ 1010 1020 some_server
                _ _ _ eq_refl) as H.
  cbn [cache_hit] in H. destruct H as (_ & _ & H & _). exact H.
Defined.

(** A response followed by one more byte: the length declared is 13,
    14 bytes are present. *)
Lemma unpack_raises_iff_witness :
  exists h w,
    unpack_warn (packed some_response ++ [Byte.x00]) = OK (h, w)
    /\ data h = [Byte.x80; Byte.x00] /\ total_length h = 13.
Proof.
  eexists _, _. split; [reflexivity|].
  destruct (unpack_raises_iff (packed some_response ++ [Byte.x00])) as [_ H].
  destruct (H _ _ eq_refl) as (H1 & H2 & _). split; [exact H1|exact H2].
Defined.

End Examples.

(** * Further properties of the code *)

(** ** The header codec *)

Lemma declared_length_take buf : declared_length (take 12 buf) = declared_length buf.
Proof.
  unfold declared_length.
  rewrite (take_drop_commute buf 2 4), (take_drop_commute (take 12 buf) 2 4).
  rewrite take_take. reflexivity.
Qed.

(** X1: The constructor succeeds exactly when the total length lies in
    [[12, 65536]] and the payload has at most 65524 bytes; no other
    argument is checked. *)
Theorem init_succeeds_iff ts tl r c s q st cc d :
  is_OK (CalculatorHeader_init ts tl r c s q st cc d) = true
  <-> (12 <= given_length tl d <= 65536 /\ len d <= 65524).
Proof.
  split.
  - destruct (CalculatorHeader_init ts tl r c s q st cc d) as [[h w]|e] eqn:H;
      [|discriminate].
    intros _. apply init_inv in H as (_ & Hlen & Hdata).
    header_constants. lia.
  - intros [Hlen Hdata].
    destruct (init_ok ts tl r c s q st cc d) as (h & w & ->);
      [header_constants; lia..|reflexivity].
Qed.

Lemma pack_length (h : CalculatorHeader) (bs : bytes) :
  pack h = OK bs -> len bs = 12 + len (data h).
Proof.
  unfold pack. intros H.
  destruct (struct.pack _ _ _ _) as [prefix|e] eqn:Hp; [|discriminate].
  injection H as <-.
  destruct (struct_facts.unpack_pack_fields _ _ _ _ (data h) _ Hp) as (Hl & _).
  unfold len in *. rewrite length_app. lia.
Qed.

(** X2: [pack] succeeds exactly when the four packed numbers fit their
    fields.  Its output is 12 bytes longer than the payload: bytes 4 and
    5 hold the total length, bytes 10 and 11 are zero, and the payload
    follows unchanged. *)
Theorem pack_layout (h : CalculatorHeader) :
  (is_OK (pack h) = true
   <-> (0 <= unix_time_stamp h < 2 ^ 32 /\ 0 <= total_length h < 2 ^ 16
        /\ 0 <= pack_flags (reserved h) (cache_result h) (show_steps h)
                  (is_request h) (status_code h) < 2 ^ 16
        /\ 0 <= cache_control h < 2 ^ 16))
  /\ (forall bs, pack h = OK bs ->
        len bs = 12 + len (data h) /\ drop 12 bs = data h
        /\ take 2 (drop 10 bs) = [Byte.x00; Byte.x00]
        /\ declared_length bs = total_length h).
Proof.
  unfold pack.
  set (flags := pack_flags _ _ _ _ _).
  split.
  - unfold struct.pack.
    destruct (struct.fits 32 (unix_time_stamp h)) eqn:F1;
      destruct (struct.fits 16 (total_length h)) eqn:F2;
      destruct (struct.fits 16 flags) eqn:F3;
      destruct (struct.fits 16 (cache_control h)) eqn:F4; cbn;
      repeat match goal with
        | H : struct.fits _ _ = true |- _ => apply struct_facts.fits_spec in H
        | H : struct.fits _ _ = false |- _ =>
            apply not_true_iff_false in H; rewrite struct_facts.fits_spec in H
        end;
      split; intros; try discriminate; try reflexivity; try tauto.
  - intros bs H.
    destruct (struct.pack (unix_time_stamp h) (total_length h) flags (cache_control h))
      as [prefix|e] eqn:Hp; [|discriminate].
    injection H as <-.
    destruct (struct_facts.unpack_pack_fields _ _ _ _ (data h) _ Hp) as (Hl & Hu & Hd).
    assert (Hn : length prefix = 12%nat) by (unfold len in Hl; lia).
    split; [unfold len in *; rewrite length_app; lia|].
    split; [exact Hd|].
    split.
    + unfold struct.pack in Hp.
      destruct (negb _); [discriminate|]. destruct (negb _); [discriminate|].
      injection Hp as <-. reflexivity.
    + rewrite <- declared_length_take. unfold declared_length.
      unfold struct.unpack in Hu.
      destruct (negb _); [discriminate|]. injection Hu as _ Htl _ _. exact Htl.
Qed.

Lemma from_bytes_be_take_range n (bs : bytes) :
  0 <= struct.from_bytes_be (take n bs) < 256 ^ Z.of_nat n.
Proof.
  pose proof (from_bytes_be_range (take n bs)) as H.
  assert (Hl : (length (take n bs) <= n)%nat) by (rewrite length_take; lia).
  assert (256 ^ Z.of_nat (length (take n bs)) <= 256 ^ Z.of_nat n)
    by (apply Z.pow_le_mono_r; lia).
  lia.
Qed.

Lemma take_drop_take {A} (l : list A) (n off m : nat) :
  (off + n <= m)%nat -> take n (drop off (take m l)) = take n (drop off l).
Proof.
  intros H. rewrite (take_drop_commute l n off), (take_drop_commute (take m l) n off).
  rewrite take_take. f_equal. f_equal. lia.
Qed.

(** With at least 12 bytes, [unpack] is the constructor applied to the
    big-endian fields at offsets 0, 4, 6 and 8 and to the bytes from
    offset 12 on. *)
Lemma unpack_warn_fields buf :
  12 <= len buf ->
  unpack_warn buf
  = let '(r, c, s, q, st) :=
      unpack_flags (struct.from_bytes_be (take 2 (drop 6 buf))) in
    CalculatorHeader_init (struct.from_bytes_be (take 4 buf))
      (Some (declared_length buf)) r c s q st
      (struct.from_bytes_be (take 2 (drop 8 buf))) (drop 12 buf).
Proof.
  intros Hlen. unfold unpack_warn.
  assert (E : (len buf <? HEADER_MIN_LENGTH) = false) by (apply Z.ltb_ge; exact Hlen).
  rewrite E. change (Z.to_nat HEADER_MIN_LENGTH) with 12%nat.
  unfold struct.unpack.
  assert (E12 : len (take 12 buf) = struct.calcsize).
  { unfold len in *. rewrite length_take. unfold struct.calcsize. lia. }
  rewrite E12, Z.eqb_refl. cbn [negb result_bind].
  rewrite take_take, !take_drop_take by lia.
  replace (4 `min` 12)%nat with 4%nat by reflexivity. reflexivity.
Qed.

(** X3: The two padding bytes are not read: whatever bytes 10 and 11 are,
    [unpack] gives the same result. *)
Theorem unpack_ignores_padding (prefix rest : bytes) (p1 p2 q1 q2 : byte) :
  length prefix = 10%nat ->
  unpack (prefix ++ [p1; p2] ++ rest) = unpack (prefix ++ [q1; q2] ++ rest).
Proof.
  intros Hp.
  assert (Hfield : forall (pad : bytes) off n, (off + n <= 10)%nat ->
            take n (drop off (prefix ++ pad ++ rest)) = take n (drop off prefix)).
  { intros pad off n H. rewrite drop_app_le by lia.
    apply take_app_le. rewrite length_drop. lia. }
  assert (Htake : forall pad : bytes, take 4 (prefix ++ pad ++ rest) = take 4 prefix)
    by (intros pad; apply take_app_le; lia).
  assert (Hrest : forall a b : byte, drop 12 (prefix ++ [a; b] ++ rest) = rest).
  { intros a b. rewrite (app_assoc prefix [a; b] rest).
    apply drop_app_length'. rewrite length_app, Hp. reflexivity. }
  assert (Hlen : forall a b : byte, 12 <= len (prefix ++ [a; b] ++ rest)).
  { intros a b. unfold len. rewrite !length_app, Hp. cbn [length]. lia. }
  unfold unpack. rewrite !unpack_warn_fields by apply Hlen.
  unfold declared_length.
  rewrite !Hrest, !(Hfield [p1; p2]), !(Hfield [q1; q2]) by lia.
  rewrite !Htake. reflexivity.
Qed.

(** X4: Whatever [unpack] returns can be packed, and unpacking those bytes
    gives the same header again. *)
Theorem unpack_pack_unpack (buf : bytes) (h : CalculatorHeader) :
  unpack buf = OK h -> exists bs, pack h = OK bs /\ unpack bs = OK h.
Proof.
  intros H.
  assert (Hlen : 12 <= len buf).
  { destruct (Z.lt_ge_cases (len buf) 12) as [Hs|]; [|assumption].
    unfold unpack, unpack_warn in H. apply Z.ltb_lt in Hs.
    unfold HEADER_MIN_LENGTH, struct.calcsize in H. rewrite Hs in H. discriminate. }
  unfold unpack in H. rewrite unpack_warn_fields in H by exact Hlen.
  destruct (unpack_flags _) as [[[[r c] s] q] st] eqn:Hf.
  destruct (CalculatorHeader_init _ _ _ _ _ _ _ _ _) as [[h' w]|e] eqn:Hinit;
    [|discriminate].
  injection H as ->.
  apply unpack_pack.
  - unfold accepted. eauto 12.
  - apply init_inv in Hinit as (-> & _ & _).
    apply unpack_flags_range in Hf as [Hr Hst].
    pose proof (from_bytes_be_take_range 4 buf) as Hts.
    pose proof (from_bytes_be_take_range 2 (drop 8 buf)) as Hcc.
    change (256 ^ Z.of_nat 4) with (2 ^ 32) in Hts.
    change (256 ^ Z.of_nat 2) with (2 ^ 16) in Hcc.
    unfold fits_wire. cbn [unix_time_stamp reserved status_code cache_control].
    repeat split; try lia;
      unfold normal_cache_control; destruct (_ && _); lia.
  - apply init_inv in Hinit as (-> & _ & _). cbn [total_length given_length].
    apply declared_length_range.
Qed.

Lemma unpack_pack_unpack_witness :
  exists bs,
    pack Ints.some_response = OK bs /\ unpack bs = OK Ints.some_response.
Proof.
  apply (unpack_pack_unpack (Ints.packed Ints.some_response)). reflexivity.
Defined.

(** X5: A header the constructor built from fields in their wire ranges,
    with a total length below [2 ^ 16], is packed into 12 bytes more than
    its payload, and [unpack] gives the same header back from them. *)
Theorem init_pack_unpack ts tl r c s q st cc d h w :
  CalculatorHeader_init ts tl r c s q st cc d = OK (h, w) ->
  0 <= ts < 2 ^ 32 -> 0 <= r < 8 -> 0 <= st < 1024 -> 0 <= cc < 2 ^ 16 ->
  given_length tl d < 2 ^ 16 ->
  exists bs, pack h = OK bs /\ len bs = 12 + len d /\ unpack bs = OK h.
Proof.
  intros Hinit Hts Hr Hst Hcc Htl.
  assert (Hacc : accepted h) by (unfold accepted; eauto 12).
  apply init_inv in Hinit as (Hh & _ & _).
  destruct (unpack_pack h Hacc) as (bs & Hp & Hu).
  - rewrite Hh. unfold fits_wire.
    cbn [unix_time_stamp reserved status_code cache_control].
    repeat split; try lia; unfold normal_cache_control; destruct (_ && _); lia.
  - rewrite Hh. exact Htl.
  - exists bs. split; [exact Hp|]. split; [|exact Hu].
    rewrite (pack_length h bs Hp), Hh. reflexivity.
Qed.

(** X6: The flags word and the five fields determine each other: fields in
    their widths pack into 16 bits from which [unpack_flags] reads them
    back, and every 16-bit word unpacks into fields in their widths that
    pack into that word again. *)
Theorem flags_bijection :
  (forall r c s q st, 0 <= r < 8 -> 0 <= st < 1024 ->
     0 <= pack_flags r c s q st < 2 ^ 16
     /\ unpack_flags (pack_flags r c s q st) = (r, c, s, q, st))
  /\ (forall flags, 0 <= flags < 2 ^ 16 ->
        exists r c s q st,
          unpack_flags flags = (r, c, s, q, st)
          /\ 0 <= r < 8 /\ 0 <= st < 1024
          /\ pack_flags r c s q st = flags).
Proof.
  split.
  - intros r c s q st Hr Hst. split.
    + apply pack_flags_range; assumption.
    + apply unpack_pack_flags; assumption.
  - intros flags Hf.
    exists (Z.land (Z.shiftr flags 13) (Z.shiftl 1 3 - 1)),
      (bool_of_int (Z.land flags (Z.shiftl 1 12))),
      (bool_of_int (Z.land flags (Z.shiftl 1 11))),
      (bool_of_int (Z.land flags (Z.shiftl 1 10))),
      (Z.land flags (Z.shiftl 1 10 - 1)).
    split; [reflexivity|].
    destruct (unpack_flags_range flags _ _ _ _ _ eq_refl) as [Hr Hst].
    split; [exact Hr|]. split; [exact Hst|].
    rewrite pack_flags_sum by exact Hst.
    rewrite !bool_of_int_mask by lia.
    replace (Z.shiftl 1 10 - 1) with (Z.ones 10) by reflexivity.
    replace (Z.shiftl 1 3 - 1) with (Z.ones 3) by reflexivity.
    rewrite !Z.land_ones, Z.shiftr_div_pow2 by lia.
    rewrite !Z.testbit_spec' by lia.
    change (2 ^ 13) with 8192. change (2 ^ 12) with 4096.
    change (2 ^ 11) with 2048. change (2 ^ 10) with 1024. change (2 ^ 3) with 8.
    change (2 ^ 16) with 65536 in Hf. clear Hr Hst.
    Z.div_mod_to_equations. lia.
Qed.

(** ** The bracket pass of [stringify] *)

Lemma match_brackets_depth s : forall i m stack,
  match match_brackets s i m stack with
  | OK (_, stack') => bracket_depth s (length stack) = Some (length stack')
  | Raise e =>
      bracket_depth s (length stack) = None
      /\ e = ValueError "Unmatched closing bracket"
  end.
Proof.
  induction s as [|c s IH]; intros i m stack; cbn [match_brackets bracket_depth].
  - reflexivity.
  - destruct (is_char c "(").
    + apply (IH (S i) m (i :: stack)).
    + destruct (is_char c ")").
      * destruct stack as [|top stack]; cbn [length].
        -- split; reflexivity.
        -- apply IH.
      * apply IH.
Qed.

Lemma strip_brackets_balanced (s : string) :
  bracket_depth s 0 = Some 0%nat -> is_OK (strip_brackets s) = true.
Proof.
  intros Hd. pose proof (match_brackets_depth s 0 [] []) as H.
  unfold strip_brackets.
  destruct (match_brackets s 0 [] []) as [[m stack]|e]; cbn [length] in H.
  - rewrite Hd in H. injection H as H. destruct stack; [|discriminate].
    cbn [result_bind length].
    destruct (dict_get m 0) as [k|]; [destruct (_ =? _)|]; reflexivity.
  - destruct H as [H _]. congruence.
Qed.

(** X7: The pass raises exactly on unbalanced brackets: [ValueError] for a
    closing bracket without partner, [ValueError] for an opening bracket
    left open, and a string otherwise. *)
Theorem strip_brackets_raises_iff (s : string) :
  match bracket_depth s 0 with
  | Some O => is_OK (strip_brackets s) = true
  | Some (S _) => strip_brackets s = Raise (ValueError "Unmatched opening bracket")
  | None => strip_brackets s = Raise (ValueError "Unmatched closing bracket")
  end.
Proof.
  pose proof (match_brackets_depth s 0 [] []) as H. unfold strip_brackets.
  destruct (match_brackets s 0 [] []) as [[m stack]|e]; cbn [length] in H.
  - rewrite H. cbn [result_bind]. destruct stack as [|top stack]; cbn [length].
    + destruct (dict_get m 0) as [k|]; [destruct (_ =? _)|]; reflexivity.
    + reflexivity.
  - destruct H as [-> ->]. reflexivity.
Qed.

Lemma match_brackets_free s : forall i m stack,
  bracket_free s = true -> match_brackets s i m stack = OK (m, stack).
Proof.
  induction s as [|c s IH]; intros i m stack H; cbn [match_brackets bracket_free] in *.
  - reflexivity.
  - apply andb_true_iff in H as [H Hs]. apply andb_true_iff in H as [H1 H2].
    apply negb_true_iff in H1, H2. rewrite H1, H2. apply IH, Hs.
Qed.

(** X8: A string without brackets comes back unchanged. *)
Theorem strip_brackets_free (s : string) :
  bracket_free s = true -> strip_brackets s = OK s.
Proof.
  intros H. unfold strip_brackets. rewrite (match_brackets_free s 0 [] [] H).
  reflexivity.
Qed.

Lemma strip_brackets_free_witness : strip_brackets "1 + 2" = OK "1 + 2".
Proof. apply strip_brackets_free. reflexivity. Defined.

Lemma match_brackets_free_app s t : forall i m stack,
  bracket_free s = true ->
  match_brackets (s +:+ t) i m stack
  = match_brackets t (i + String.length s) m stack.
Proof.
  induction s as [|c s IH]; intros i m stack H.
  - cbn [String.length]. rewrite Nat.add_0_r. reflexivity.
  - change (String c s +:+ t) with (String c (s +:+ t)).
    cbn [match_brackets bracket_free String.length] in *.
    apply andb_true_iff in H as [H Hs]. apply andb_true_iff in H as [H1 H2].
    apply negb_true_iff in H1, H2. rewrite H1, H2, (IH _ _ _ Hs).
    f_equal. lia.
Qed.

Lemma length_append (s t : string) :
  String.length (s +:+ t) = (String.length s + String.length t)%nat.
Proof.
  induction s as [|c s IH]; [reflexivity|].
  change (String c s +:+ t) with (String c (s +:+ t)).
  cbn [String.length]. rewrite IH. reflexivity.
Qed.

Lemma substring_prefix (s t : string) :
  String.substring 0 (String.length s) (s +:+ t) = s.
Proof.
  induction s as [|c s IH].
  - destruct t; reflexivity.
  - change (String c s +:+ t) with (String c (s +:+ t)).
    cbn [String.length String.substring]. rewrite IH. reflexivity.
Qed.

(** X9: One pair of brackets around a string without brackets is removed. *)
Theorem strip_brackets_outer (s : string) :
  bracket_free s = true -> strip_brackets (parens s) = OK s.
Proof.
  intros H. unfold strip_brackets, parens.
  assert (E : exists c, "(" +:+ s +:+ ")" = String c (s +:+ ")")
                        /\ is_char c "(" = true)
    by (eexists; split; reflexivity).
  destruct E as (c & -> & Hc).
  assert (Hm : match_brackets (String c (s +:+ ")")) 0 [] []
               = OK ([(0%nat, S (String.length s))], [])).
  { cbn [match_brackets]. rewrite Hc.
    rewrite (match_brackets_free_app s ")" 1 [] [0%nat] H). reflexivity. }
  rewrite Hm. cbn [result_bind fold_left remove_pair fst snd dict_get Nat.eqb Nat.add].
  cbn [String.length]. rewrite length_append. cbn [String.length].
  replace (Z.of_nat (S (String.length s)) =? Z.of_nat (S (String.length s + 1)) - 1)
    with true by (symmetry; apply Z.eqb_eq; lia).
  unfold str_slice.
  replace (S (String.length s + 1) - 1 - 1)%nat with (String.length s) by lia.
  cbn [String.substring]. rewrite substring_prefix. reflexivity.
Qed.

Lemma strip_brackets_outer_witness : strip_brackets "(1 + 2)" = OK "1 + 2".
Proof. apply (strip_brackets_outer "1 + 2"). reflexivity. Defined.

Lemma bracket_depth_app s t : forall d,
  bracket_depth (s +:+ t) d
  = match bracket_depth s d with
    | Some d' => bracket_depth t d'
    | None => None
    end.
Proof.
  induction s as [|c s IH]; intros d.
  - reflexivity.
  - change (String c s +:+ t) with (String c (s +:+ t)). cbn [bracket_depth].
    destruct (is_char c "("); [apply IH|].
    destruct (is_char c ")"); [|apply IH].
    destruct d; [reflexivity|apply IH].
Qed.

Lemma keeps_app s t : keeps s -> keeps t -> keeps (s +:+ t).
Proof. intros Hs Ht d. rewrite bracket_depth_app, Hs. apply Ht. Qed.

Lemma keeps_free s : bracket_free s = true -> keeps s.
Proof.
  induction s as [|c s IH]; intros H d; cbn [bracket_depth bracket_free] in *.
  - reflexivity.
  - apply andb_true_iff in H as [H Hs]. apply andb_true_iff in H as [H1 H2].
    apply negb_true_iff in H1, H2. rewrite H1, H2. apply IH, Hs.
Qed.

Lemma keeps_parens s : keeps s -> keeps (parens s).
Proof.
  intros Hs d. unfold parens.
  rewrite bracket_depth_app. change (bracket_depth "(" d) with (Some (S d)).
  cbv iota. rewrite bracket_depth_app, Hs. reflexivity.
Qed.

Lemma keeps_concat sep (l : list string) :
  keeps sep -> Forall keeps l -> keeps (String.concat sep l).
Proof.
  intros Hsep Hl. induction Hl as [|x l Hx Hl IH]; [intros d; reflexivity|].
  cbn [String.concat]. destruct l as [|y l]; [exact Hx|].
  apply keeps_app; [exact Hx|]. apply keeps_app; [exact Hsep|exact IH].
Qed.

Section PlainFacts.

Context {num RandomState : Type}.
Variable str_of_num : num -> string.

#[local] Abbreviation Expression := (Expression num RandomState).

Lemma plain_args (P : Expression -> Prop) (args : list Expression) :
  Forall (fun e => plain str_of_num e -> P e) args ->
  fold_right (fun arg rest => plain str_of_num arg /\ rest) True args ->
  Forall P args.
Proof.
  induction 1 as [|x l Hx _ IH]; cbn [fold_right]; [constructor|].
  intros [H1 H2]. constructor; [exact (Hx H1)|exact (IH H2)].
Qed.

Lemma keeps_str (e : Expression) : plain str_of_num e -> keeps (str str_of_num e).
Proof.
  induction e as [v|n v|l op r IHl IHr|op x IHx|f args IHargs|s]
    using Expression_ind'; cbn [plain str]; intros H.
  - apply keeps_free, H.
  - apply keeps_free, H.
  - destruct H as (Hl & Hop & Hr).
    assert (Kl : keeps (if is_BinaryExpr l then parens (str str_of_num l)
                        else str str_of_num l))
      by (destruct (is_BinaryExpr l); [apply keeps_parens|]; apply IHl, Hl).
    assert (Kr : keeps (if is_BinaryExpr r then parens (str str_of_num r)
                        else str str_of_num r))
      by (destruct (is_BinaryExpr r); [apply keeps_parens|]; apply IHr, Hr).
    repeat apply keeps_app; try assumption;
      apply keeps_free; try assumption; reflexivity.
  - destruct H as [Hop Hx]. apply keeps_app; [apply keeps_free, Hop|apply IHx, Hx].
  - destruct H as [Hf Hargs]. apply keeps_app; [apply keeps_free, Hf|].
    apply keeps_parens, keeps_concat; [apply keeps_free; reflexivity|].
    apply Forall_map. apply (plain_args _ _ IHargs Hargs).
  - apply keeps_free, H.
Qed.

Lemma keeps_str_brackets (e : Expression) b :
  plain str_of_num e -> keeps (str_brackets str_of_num e b).
Proof.
  induction e as [v|n v|l op r IHl IHr|op x IHx|f args IHargs|s]
    using Expression_ind'; cbn [plain str_brackets]; intros H.
  - apply (keeps_str (Constant v)), H.
  - apply (keeps_str (NamedConstant n v)), H.
  - destruct H as (Hl & Hop & Hr). apply keeps_parens.
    repeat apply keeps_app; try (apply IHl, Hl); try (apply IHr, Hr);
      apply keeps_free; try assumption; reflexivity.
  - destruct H as [Hop Hx].
    apply keeps_app; [apply keeps_free, Hop|apply keeps_parens, IHx, Hx].
  - destruct H as [Hf Hargs]. apply keeps_app; [apply keeps_free, Hf|].
    apply keeps_parens, keeps_concat; [apply keeps_free; reflexivity|].
    apply Forall_map. apply (plain_args _ _ IHargs Hargs).
  - apply (keeps_str (OtherExpression s)), H.
Qed.

(** X10: [stringify] does not raise on an expression whose names, symbols
    and numbers are written without brackets, with or without
    [add_brackets]. *)
Theorem stringify_plain_returns (e : Expression) (add_brackets : bool) :
  plain str_of_num e ->
  is_OK (stringify str_of_num (Expn e) add_brackets) = true.
Proof.
  intros H. unfold stringify. cbn [type_fallback].
  set (s := if add_brackets then _ else _).
  assert (K : keeps s)
    by (unfold s; destruct add_brackets; [apply keeps_str_brackets|apply keeps_str];
        exact H).
  exact (strip_brackets_balanced s (K 0%nat)).
Qed.

End PlainFacts.

Lemma stringify_plain_returns_witness :
  is_OK (stringify Ints.str_of_int (Expn Ints.sum_of_negations) true) = true.
Proof.
  apply (stringify_plain_returns Ints.str_of_int Ints.sum_of_negations true).
  cbn. repeat split.
Defined.

(** ** What [calculate] does to the store *)

Section EvaluatorFurther.

Context {num RandomState : Type}.

#[local] Abbreviation Expression := (Expression num RandomState).
#[local] Abbreviation State := (State num RandomState).

(** X11: [calculate] only appends to the list it was given: whether it
    returns or raises, what that list held before is a prefix of what
    it holds afterwards, every other list of the store is as it was,
    and no list is dropped. *)
Theorem calculate_frame (expr : Expression) steps (st : State) r st' :
  (steps < length (heap st))%nat ->
  calculate expr steps st = (r, st') ->
  contents st steps `prefix_of` contents st' steps
  /\ (forall l, l <> steps -> (l < length (heap st))%nat ->
        heap st' !! l = heap st !! l)
  /\ (length (heap st) <= length (heap st'))%nat.
Proof.
  intros Hlt Hrun.
  destruct (steps_of expr (random st)) as [[r0 Δ] g'] eqn:Hs.
  destruct (calculate_refines expr steps st r0 Δ g' Hlt Hs) as (_ & _ & F & H3).
  rewrite Hrun in H3. cbn [snd] in H3. split; [|split].
  - unfold contents. rewrite H3, lookup_app_l by (rewrite length_alter; exact Hlt).
    rewrite list_lookup_alter_eq.
    destruct (heap st !! steps) as [xs|]; cbn; [apply prefix_app_r|]; reflexivity.
  - intros l Hne Hl. rewrite H3, lookup_app_l by (rewrite length_alter; exact Hl).
    apply list_lookup_alter_ne. congruence.
  - rewrite H3, length_app, length_alter. lia.
Qed.

Lemma length_all_but_last {A} (xs : list A) :
  length (all_but_last xs) = (length xs - 1)%nat.
Proof. unfold all_but_last. rewrite length_take. lia. Qed.

Lemma counted_shown (expr : Expression) g v xs g' :
  counted expr -> steps_of expr g = (OK v, xs, g') ->
  length (all_but_last xs) = operations expr.
Proof.
  intros Hc Hs. rewrite length_all_but_last, (Hc _ _ _ _ Hs).
  destruct expr; cbn; lia.
Qed.

Lemma args_steps_count f expr_args (rest : list Expression) :
  Forall counted rest ->
  forall args g vals shown g',
    args_steps steps_of f expr_args rest args g = (OK vals, shown, g') ->
    length shown = fold_right (fun arg n => (operations arg + n)%nat) 0%nat rest.
Proof.
  induction 1 as [|x rest Hx _ IH]; intros args g vals shown g' Hs;
    cbn [args_steps fold_right] in *.
  - injection Hs as _ <- _. reflexivity.
  - destruct (steps_of x g) as [[[v|e] xs] g1] eqn:Ex; [|discriminate].
    destruct (args_steps steps_of f expr_args rest (args ++ [v]) g1)
      as [[r later] g2] eqn:Er.
    injection Hs as -> <- ->.
    rewrite length_app, length_map, (counted_shown _ _ _ _ _ Hx Ex), (IH _ _ _ _ _ Er).
    reflexivity.
Qed.

Lemma steps_of_count (expr : Expression) : counted expr.
Proof.
  induction expr as [c|n c|l op r IHl IHr|op x IHx|f args IHargs|s]
    using Expression_ind'; intros g v Δ g' Hs; cbn [steps_of is_leaf operations] in *.
  - injection Hs as _ <- _. reflexivity.
  - injection Hs as _ <- _. reflexivity.
  - destruct (steps_of l g) as [[[left'|e] xs] g1] eqn:El; [|discriminate].
    destruct (steps_of r g1) as [[[right'|e] ys] g2] eqn:Er; [|discriminate].
    destruct (bin_function op left' right'); [|discriminate].
    injection Hs as _ <- _.
    rewrite !length_app, !length_map, (counted_shown _ _ _ _ _ IHl El),
      (counted_shown _ _ _ _ _ IHr Er). cbn [length]. lia.
  - destruct (steps_of x g) as [[[operand'|e] xs] g1] eqn:Ex; [|discriminate].
    destruct (un_function op operand'); [|discriminate].
    injection Hs as _ <- _.
    rewrite !length_app, !length_map, (counted_shown _ _ _ _ _ IHx Ex).
    cbn [length]. lia.
  - destruct (args_steps steps_of f args args [] g) as [[[vals|e] shown] g1] eqn:Ea;
      [|discriminate].
    destruct (fn_function f vals g1) as [[value|e] g2]; [|discriminate].
    injection Hs as _ <- _.
    rewrite !length_app, (args_steps_count _ _ _ IHargs _ _ _ _ _ Ea).
    cbn [length]. lia.
  - discriminate.
Qed.

(** X12: A call of [calculate] that returns has appended no step for a
    [Constant] or a [NamedConstant], and otherwise one step for every
    operator and function application in the expression plus one for
    the value: never exactly one step. *)
Theorem calculate_step_count (expr : Expression) steps (st : State) v l st' :
  (steps < length (heap st))%nat ->
  calculate expr steps st = (OK (v, l), st') ->
  length (contents st' steps)
  = (length (contents st steps)
     + if is_leaf expr then 0 else S (operations expr))%nat
  /\ length (contents st' steps) <> S (length (contents st steps)).
Proof.
  intros Hlt Hrun.
  destruct (calculate_contents expr steps st _ _ Hlt Hrun)
    as (r & Δ & Hs & Hr & Hc & _).
  destruct r as [v'|e]; [|discriminate].
  pose proof (steps_of_count expr _ _ _ _ Hs) as Hn.
  rewrite Hc, length_app, Hn. split; [reflexivity|].
  destruct expr; cbn [is_leaf operations]; try lia. discriminate Hs.
Qed.

Lemma args_steps_unknown f expr_args (rest : list Expression) :
  Forall (fun e => has_unknown e = true ->
            forall g r Δ g', steps_of e g = (r, Δ, g') -> is_OK r = false) rest ->
  existsb has_unknown rest = true ->
  forall args g r shown g',
    args_steps steps_of f expr_args rest args g = (r, shown, g') ->
    is_OK r = false.
Proof.
  induction 1 as [|x rest Hx _ IH]; cbn [existsb args_steps]; [discriminate|].
  intros Hex args g r shown g' Hs.
  destruct (steps_of x g) as [[[v|e] xs] g1] eqn:Ex;
    [|injection Hs as <- _ _; reflexivity].
  destruct (args_steps steps_of f expr_args rest (args ++ [v]) g1)
    as [[r1 later] g2] eqn:Er.
  injection Hs as <- _ _.
  apply orb_true_iff in Hex as [Hu|Hu].
  - discriminate (Hx Hu _ _ _ _ Ex).
  - exact (IH Hu _ _ _ _ _ Er).
Qed.

Lemma steps_of_unknown (expr : Expression) :
  has_unknown expr = true ->
  forall g r Δ g', steps_of expr g = (r, Δ, g') -> is_OK r = false.
Proof.
  induction expr as [c|n c|l op r IHl IHr|op x IHx|f args IHargs|s]
    using Expression_ind'; cbn [has_unknown]; intros Hu g r0 Δ g' Hs;
    try discriminate; cbn [steps_of] in Hs.
  - destruct (steps_of l g) as [[[left'|e] xs] g1] eqn:El;
      [|injection Hs as <- _ _; reflexivity].
    destruct (steps_of r g1) as [[[right'|e] ys] g2] eqn:Er;
      [|injection Hs as <- _ _; reflexivity].
    apply orb_true_iff in Hu as [Hu|Hu].
    + discriminate (IHl Hu _ _ _ _ El).
    + discriminate (IHr Hu _ _ _ _ Er).
  - destruct (steps_of x g) as [[[operand'|e] xs] g1] eqn:Ex;
      [|injection Hs as <- _ _; reflexivity].
    discriminate (IHx Hu _ _ _ _ Ex).
  - destruct (args_steps steps_of f args args [] g) as [[[vals|e] shown] g1] eqn:Ea;
      [|injection Hs as <- _ _; reflexivity].
    discriminate (args_steps_unknown _ _ _ IHargs Hu _ _ _ _ _ Ea).
  - injection Hs as <- _ _. reflexivity.
Qed.

(** X13: [calculate] returns no value for an expression that has, at any
    depth, a node of a class it does not know: every operand and
    argument is evaluated before an operator or function is applied, so
    the call raises whatever else the expression holds. *)
Theorem calculate_unknown_raises (expr : Expression) steps (st : State) :
  (steps < length (heap st))%nat ->
  has_unknown expr = true ->
  is_OK (calculate expr steps st).1 = false.
Proof.
  intros Hlt Hu.
  destruct (steps_of expr (random st)) as [[r Δ] g'] eqn:Hs.
  destruct (calculate_refines expr steps st r Δ g' Hlt Hs) as (H1 & _).
  rewrite H1. pose proof (steps_of_unknown expr Hu _ _ _ _ Hs) as Hr.
  destruct r; [discriminate|reflexivity].
Qed.

(** A call on a list made for it: what the list holds afterwards is
    what the call appended. *)
Lemma fresh_calculate_steps_of (expr : Expression) (st : State) value l st' :
  calculate expr (length (heap st)) (new_list st).2 = (OK (value, l), st') ->
  exists Δ,
    steps_of expr (random st) = (OK value, Δ, random st') /\ Δ = contents st' l.
Proof.
  intros Hrun. cbn [new_list snd] in Hrun.
  set (st1 := {| heap := heap st ++ [[]]; random := random st |}) in *.
  assert (Hlt : (length (heap st) < length (heap st1))%nat)
    by (unfold st1; cbn [heap]; rewrite length_app; cbn; lia).
  destruct (calculate_contents _ _ st1 _ _ Hlt Hrun) as (r & Δ & Hs & Hr & Hc & _).
  destruct r as [v|e]; [|discriminate]. cbn [with_loc] in Hr.
  assert (value = v /\ l = length (heap st)) as [-> ->] by (split; congruence).
  exists Δ. split; [exact Hs|].
  rewrite Hc. unfold contents at 1, st1. cbn [heap].
  rewrite <- (Nat.add_0_r (length (heap st))), lookup_app_plus. reflexivity.
Qed.

End EvaluatorFurther.

(** ** The responses of the server *)

Section ServerFurther.

Context {num RandomState : Type}.
Variable str_of_num : num -> string.
Variable pickle_loads : bytes -> result (@unpickled num RandomState).
Variable pickle_dumps_result : num * list string -> bytes.
Variable pickle_dumps_error : exn -> bytes.

#[local] Abbreviation State := (State num RandomState).
#[local] Abbreviation process_request :=
  (server_process_request str_of_num pickle_loads pickle_dumps_result
     pickle_dumps_error).
#[local] Abbreviation from_result := (from_result pickle_dumps_result).
#[local] Abbreviation from_error := (from_error pickle_dumps_error).

(** What the server makes of the steps of an evaluation. *)
#[local] Abbreviation shown_steps request Δ :=
  (if show_steps request
   then result_map (fun step => stringify str_of_num (Expn step) true) Δ
   else OK []).

Lemma from_response_fields now d status s c cc h :
  header_only (from_response now d status s c cc) = OK h ->
  h = {| unix_time_stamp := now; total_length := 12 + len d; reserved := 0;
         cache_result := normal_cache_result c false cc; show_steps := s;
         is_request := false; status_code := status;
         cache_control := normal_cache_control c cc; data := d |}
  /\ len d <= 65524.
Proof.
  unfold header_only, from_response. intros H.
  destruct (CalculatorHeader_init _ _ _ _ _ _ _ _ _) as [[h' w]|] eqn:Hi;
    [|discriminate].
  injection H as <-. apply init_inv in Hi as (-> & _ & Hd).
  header_constants. split; [reflexivity|lia].
Qed.

Lemma process_request_not_request request now (st : State) :
  is_request request = false ->
  process_request request now st
  = (from_error now (TypeError "Received a response instead of a request")
       STATUS_CLIENT_ERROR CACHE_POLICY CACHE_CONTROL, (new_list st).2).
Proof.
  intros Hreq. unfold server_process_request, bind at 1. cbn [new_list].
  unfold process_request_try. rewrite Hreq. reflexivity.
Qed.

Lemma process_request_no_expression request now (st : State) e :
  is_request request = true ->
  data_to_expression pickle_loads request = Raise e ->
  process_request request now st
  = (from_error now e STATUS_CLIENT_ERROR CACHE_POLICY CACHE_CONTROL,
     (new_list st).2).
Proof.
  intros Hreq He. unfold server_process_request, bind at 1. cbn [new_list].
  unfold process_request_try. rewrite Hreq. unfold bind, lift. rewrite He.
  reflexivity.
Qed.

Lemma process_request_evaluated request now (st : State) expr r Δ g' :
  is_request request = true ->
  data_to_expression pickle_loads request = OK expr ->
  steps_of expr (random st) = (r, Δ, g') ->
  (process_request request now st).1
  = match r with
    | OK value =>
        result_bind (shown_steps request Δ) (fun steps =>
          from_result now value steps CACHE_POLICY CACHE_CONTROL)
    | Raise e => from_error now e STATUS_CLIENT_ERROR CACHE_POLICY CACHE_CONTROL
    end
  /\ random (process_request request now st).2 = g'.
Proof.
  intros Hreq Hexpr Hs.
  destruct (calculate expr (length (heap st))
              {| heap := heap st ++ [[]]; random := random st |})
    as [r' st'] eqn:Hrun.
  assert (E : process_request request now st
              = (match r' with
                 | OK (value, steps) =>
                     result_bind (shown_steps request (contents st' steps))
                       (fun steps =>
                          from_result now value steps CACHE_POLICY CACHE_CONTROL)
                 | Raise e =>
                     from_error now e STATUS_CLIENT_ERROR CACHE_POLICY CACHE_CONTROL
                 end, st')).
  { unfold server_process_request, bind at 1. cbn [new_list].
    unfold process_request_try. rewrite Hreq. unfold bind, lift. rewrite Hexpr.
    rewrite Hrun. destruct r' as [[value steps]|e]; reflexivity. }
  rewrite E. cbn [fst snd]. clear E.
  set (st1 := {| heap := heap st ++ [[]]; random := random st |}) in *.
  assert (Hlt : (length (heap st) < length (heap st1))%nat)
    by (unfold st1; cbn [heap]; rewrite length_app; cbn; lia).
  destruct (calculate_contents _ _ st1 _ _ Hlt Hrun) as (r0 & Δ0 & Hs0 & Hr & Hc & _).
  change (random st1) with (random st) in Hs0. rewrite Hs in Hs0.
  injection Hs0 as <- <- ->. subst r'.
  assert (Hnew : contents st1 (length (heap st)) = []).
  { unfold contents, st1. cbn [heap].
    rewrite <- (Nat.add_0_r (length (heap st))), lookup_app_plus. reflexivity. }
  rewrite Hnew in Hc. cbn [app] in Hc.
  destruct r as [v|e]; cbn [with_loc]; [rewrite Hc|]; split; reflexivity.
Qed.

Lemma from_result_fields now (value : num) steps h :
  from_result now value steps CACHE_POLICY CACHE_CONTROL = OK h ->
  h = {| unix_time_stamp := now;
         total_length := 12 + len (pickle_dumps_result (value, steps));
         reserved := 0; cache_result := true;
         show_steps := negb (bool_decide (steps = []));
         is_request := false; status_code := 200; cache_control := 65535;
         data := pickle_dumps_result (value, steps) |}
  /\ len (pickle_dumps_result (value, steps)) <= 65524.
Proof. intros H. apply from_response_fields in H. exact H. Qed.

Lemma from_error_fields now e h :
  from_error now e STATUS_CLIENT_ERROR CACHE_POLICY CACHE_CONTROL = OK h ->
  h = {| unix_time_stamp := now; total_length := 12 + len (pickle_dumps_error e);
         reserved := 0; cache_result := true; show_steps := false;
         is_request := false; status_code := 400; cache_control := 65535;
         data := pickle_dumps_error e |}
  /\ len (pickle_dumps_error e) <= 65524.
Proof. intros H. apply from_response_fields in H. exact H. Qed.

(** X14: Every header [process_request] returns is a response stamped with
    the current time, with status 200 or 400, marked cacheable without
    limit, with no reserved bit set, and with a payload of at most 65524
    bytes that the total length accounts for. *)
Theorem process_request_response request now (st : State) h :
  (process_request request now st).1 = OK h ->
  is_request h = false
  /\ (status_code h = 200 \/ status_code h = 400)
  /\ cache_result h = true /\ cache_control h = 65535
  /\ reserved h = 0 /\ unix_time_stamp h = now
  /\ total_length h = 12 + len (data h) /\ len (data h) <= 65524.
Proof.
  intros H.
  assert (Herr : forall e,
    from_error now e STATUS_CLIENT_ERROR CACHE_POLICY CACHE_CONTROL = OK h ->
    is_request h = false
    /\ (status_code h = 200 \/ status_code h = 400)
    /\ cache_result h = true /\ cache_control h = 65535
    /\ reserved h = 0 /\ unix_time_stamp h = now
    /\ total_length h = 12 + len (data h) /\ len (data h) <= 65524).
  { intros e He. apply from_error_fields in He as [-> Hd].
    cbn. repeat split; auto. }
  destruct (is_request request) eqn:Hreq.
  2:{ rewrite (process_request_not_request _ _ _ Hreq) in H. exact (Herr _ H). }
  destruct (data_to_expression pickle_loads request) as [expr|e] eqn:Hexpr.
  2:{ rewrite (process_request_no_expression _ _ _ _ Hreq Hexpr) in H.
      exact (Herr _ H). }
  destruct (steps_of expr (random st)) as [[r Δ] g'] eqn:Hs.
  destruct (process_request_evaluated _ now st _ _ _ _ Hreq Hexpr Hs) as [E _].
  rewrite E in H. destruct r as [v|e]; [|exact (Herr _ H)].
  destruct (shown_steps request Δ) as [steps|e]; [|discriminate].
  cbn [result_bind] in H. apply from_result_fields in H as [-> Hd].
  cbn. repeat split; auto.
Qed.

Lemma process_request_success_steps request now (st : State) expr value Δ g' :
  is_request request = true ->
  data_to_expression pickle_loads request = OK expr ->
  steps_of expr (random st) = (OK value, Δ, g') ->
  (forall e, shown_steps request Δ = Raise e ->
     (process_request request now st).1 = Raise e)
  /\ (forall h, (process_request request now st).1 = OK h ->
        status_code h = 200
        /\ show_steps h = show_steps request && negb (is_leaf expr)
        /\ exists steps,
             shown_steps request Δ = OK steps
             /\ data h = pickle_dumps_result (value, steps)
             /\ len steps = if show_steps request then len Δ else 0).
Proof.
  intros Hreq Hexpr Hs.
  destruct (process_request_evaluated _ now st _ _ _ _ Hreq Hexpr Hs) as [E _].
  rewrite E. split.
  - intros e ->. reflexivity.
  - intros h H. destruct (shown_steps request Δ) as [steps|e] eqn:Hsteps;
      [|discriminate].
    cbn [result_bind] in H. apply from_result_fields in H as [-> _].
    cbn [status_code show_steps data]. split; [reflexivity|].
    assert (Hlen : len steps = if show_steps request then len Δ else 0).
    { destruct (show_steps request).
      - clear -Hsteps. revert steps Hsteps. induction Δ as [|x Δ IH]; intros steps H.
        + injection H as <-. reflexivity.
        + cbn [result_map] in H.
          destruct (stringify str_of_num (Expn x) true) as [y|]; [|discriminate].
          destruct (result_map _ Δ) as [ys|]; [|discriminate].
          injection H as <-. unfold len in *. cbn [length].
          rewrite !Nat2Z.inj_succ, (IH ys eq_refl). reflexivity.
      - injection Hsteps as <-. reflexivity. }
    split; [|exists steps; auto].
    pose proof (steps_of_count expr _ _ _ _ Hs) as Hn.
    destruct (show_steps request); cbn [andb].
    + destruct steps as [|y ys], (is_leaf expr); cbn; try reflexivity;
        unfold len in Hlen; cbn [length] in Hlen; lia.
    + destruct steps; [reflexivity|]. unfold len in Hlen. cbn [length] in Hlen. lia.
Qed.

(** X15: The answer to a request whose expression evaluates: the status is
    200, the payload is the pickled value with one string per step when
    steps were asked for and none otherwise, and the response has
    [show_steps] set exactly when steps were asked for and the
    expression is not a bare constant.  A step that [stringify] refuses
    makes [process_request] raise instead of answering. *)
Theorem process_request_success request now (st : State) expr value l st' :
  is_request request = true ->
  data_to_expression pickle_loads request = OK expr ->
  calculate expr (length (heap st)) (new_list st).2 = (OK (value, l), st') ->
  (forall e, shown_steps request (contents st' l) = Raise e ->
     (process_request request now st).1 = Raise e)
  /\ (forall h, (process_request request now st).1 = OK h ->
        status_code h = 200
        /\ show_steps h = show_steps request && negb (is_leaf expr)
        /\ exists steps,
             shown_steps request (contents st' l) = OK steps
             /\ data h = pickle_dumps_result (value, steps)
             /\ len steps
                = if show_steps request then len (contents st' l) else 0).
Proof.
  intros Hreq Hexpr Hrun.
  destruct (fresh_calculate_steps_of expr st value l st' Hrun) as (Δ & Hs & <-).
  exact (process_request_success_steps request now st expr value _ _ Hreq Hexpr Hs).
Qed.

(** X16: Requests do not leak into one another: the answer and the state of
    the random generator afterwards depend on the request, the clock and
    the random generator only, not on the lists earlier calls left in
    the store. *)
Theorem process_request_stateless request now (st st' : State) :
  random st = random st' ->
  (process_request request now st).1 = (process_request request now st').1
  /\ random (process_request request now st).2
     = random (process_request request now st').2.
Proof.
  intros Hg. destruct (is_request request) eqn:Hreq.
  2:{ rewrite !(process_request_not_request _ _ _ Hreq). split; [reflexivity|].
      exact Hg. }
  destruct (data_to_expression pickle_loads request) as [expr|e] eqn:Hexpr.
  2:{ rewrite !(process_request_no_expression _ _ _ _ Hreq Hexpr).
      split; [reflexivity|]. exact Hg. }
  destruct (steps_of expr (random st)) as [[r Δ] g'] eqn:Hs.
  destruct (process_request_evaluated _ now st _ _ _ _ Hreq Hexpr Hs) as [E1 E2].
  rewrite Hg in Hs.
  destruct (process_request_evaluated _ now st' _ _ _ _ Hreq Hexpr Hs) as [E3 E4].
  split; congruence.
Qed.

End ServerFurther.

(** ** The proxy over several requests *)

Lemma unpack_accepted (buf : bytes) (h : CalculatorHeader) :
  unpack buf = OK h -> accepted h.
Proof.
  unfold unpack. intros H.
  destruct (unpack_warn buf) as [[h' w]|e] eqn:Hu; [|discriminate].
  injection H as <-. unfold unpack_warn in Hu.
  destruct (len buf <? HEADER_MIN_LENGTH); [discriminate|].
  destruct (struct.unpack _) as [[[[ts tl] flags] cc]|e]; [|discriminate].
  cbn [result_bind] in Hu.
  destruct (unpack_flags flags) as [[[[r c] s] q] st].
  unfold accepted. eauto 12.
Qed.

Lemma accepted_cacheable (h : CalculatorHeader) :
  accepted h -> is_request h = false -> cache_result h = true -> cacheable h.
Proof.
  intros (ts & tl & r & c & s & q & st & cc & d & w & Hinit) Hq Hc.
  apply init_inv in Hinit as (-> & _ & _).
  cbn [is_request cache_result cache_control] in *. subst q.
  unfold cacheable. cbn [is_request cache_result cache_control].
  split; [reflexivity|]. split; [exact Hc|].
  revert Hc. unfold normal_cache_result, normal_cache_control.
  destruct c, (Z.eqb_spec cc 0); cbn; congruence.
Qed.

Lemma minus_minus (cc : seconds) (a b : Z) :
  minus (minus cc a) b = minus cc (a + b).
Proof. destruct cc; cbn [minus]; [f_equal; lia|reflexivity]. Qed.

(** What [forward] has done when it reports that it cached. *)
Lemma forward_cached request cache t server stale o cache' tr :
  forward request cache t server stale = (OK o, cache', tr) ->
  cached o = true ->
  cache' = <[(data request, show_steps request) := response o]> cache
  /\ server_time_remaining o
     = minus (max_age (cache_control (response o))) (t - unix_time_stamp (response o))
  /\ client_time_remaining o
     = minus (max_age (cache_control request)) (t - unix_time_stamp (response o))
  /\ accepted (response o) /\ is_request (response o) = false
  /\ cache_result (response o) = true.
Proof.
  unfold forward.
  destruct (accepts server); cbn [negb]; [|discriminate].
  destruct (pack request) as [sent|e]; [|discriminate].
  destruct (unpack _) as [resp|e] eqn:Hu; [|discriminate].
  destruct (is_request resp) eqn:Hq; [discriminate|].
  destruct (_ && _) eqn:Hagree; intros [= <- <- <-]; cbn [cached]; [|discriminate].
  intros _. cbn [response server_time_remaining client_time_remaining].
  apply andb_true_iff in Hagree as [Hflags _].
  apply andb_true_iff in Hflags as [_ Hc].
  repeat split; try assumption. exact (unpack_accepted _ _ Hu).
Qed.

Lemma proxy_cached request cache t1 t2 server o cache' tr :
  proxy_process_request request cache t1 t2 server = (OK o, cache', tr) ->
  cached o = true ->
  is_request request = true
  /\ forward request cache t2 server (was_stale o) = (OK o, cache', tr).
Proof.
  unfold proxy_process_request.
  destruct (is_request request); cbn [negb]; [|discriminate].
  assert (Hf : forall stale,
             forward request cache t2 server stale = (OK o, cache', tr) ->
             true = true
             /\ forward request cache t2 server (was_stale o) = (OK o, cache', tr)).
  { intros stale H. split; [reflexivity|].
    assert (E : was_stale o = stale).
    { revert H. unfold forward.
      destruct (accepts server); cbn [negb]; [|discriminate].
      destruct (pack request); [|discriminate].
      destruct (unpack _); [|discriminate].
      destruct (is_request _); [discriminate|].
      destruct (_ && _); intros [= <- _ _]; reflexivity. }
    rewrite E. exact H. }
  destruct (cache !! _) as [entry|]; [|intros H _; exact (Hf _ H)].
  destruct (negb (cache_control request =? 0)); [|intros H _; exact (Hf _ H)].
  destruct (_ && _); [|intros H _; exact (Hf _ H)].
  intros [= <- _ _]. discriminate.
Qed.

(** X17: The time the proxy reports as remaining is honoured.  After a
    request whose response was cached, the same request (one that
    allows the cache) is answered with that response for as long as
    neither remainder has elapsed: from the cache, which stays as it is,
    and without any contact to the server, whether or not it is still
    there. *)
Theorem cached_then_hit request cache t1 t2 server o cache' tr
    (t3 t4 : Z) (server' : Upstream) :
  proxy_process_request request cache t1 t2 server = (OK o, cache', tr) ->
  cached o = true ->
  cache_control request <> 0 ->
  positive_time (minus (server_time_remaining o) (t3 - t2)) = true ->
  positive_time (minus (client_time_remaining o) (t3 - t2)) = true ->
  proxy_process_request request cache' t3 t4 server'
  = (OK (hit (response o)
           (minus (server_time_remaining o) (t3 - t2))
           (minus (client_time_remaining o) (t3 - t2))),
     cache', []).
Proof.
  intros Hrun Hcached Hcc Hs Hc.
  destruct (proxy_cached _ _ _ _ _ _ _ _ Hrun Hcached) as [Hreq Hf].
  destruct (forward_cached _ _ _ _ _ _ _ _ Hf Hcached) as (-> & Es & Ec & _).
  rewrite (lookup_found request _ t3 t4 server' (response o) Hreq
             (lookup_insert_eq _ _ _) Hcc).
  rewrite Es, minus_minus in Hs. rewrite Ec, minus_minus in Hc.
  rewrite Es, Ec, !minus_minus.
  replace (t2 - unix_time_stamp (response o) + (t3 - t2))
    with (t3 - unix_time_stamp (response o)) in * by lia.
  rewrite Hs, Hc. reflexivity.
Qed.

(** X18: The proxy keeps, and answers from its cache with, nothing but
    responses marked cacheable with a nonzero cache control: if every
    entry of the cache is one, so is every entry afterwards and so is
    the response of every hit. *)
Theorem proxy_cache_invariant request cache t1 t2 server r cache' tr :
  cache_ok cache ->
  proxy_process_request request cache t1 t2 server = (r, cache', tr) ->
  cache_ok cache'
  /\ (forall o, r = OK o -> cache_hit o = true -> cacheable (response o)).
Proof.
  intros Hok.
  assert (Hf : forall stale,
             forward request cache t2 server stale = (r, cache', tr) ->
             cache_ok cache'
             /\ (forall o, r = OK o -> cache_hit o = true -> cacheable (response o))).
  { intros stale. unfold forward.
    destruct (accepts server); cbn [negb];
      [|intros [= <- <- _]; split; [exact Hok|discriminate]].
    destruct (pack request) as [sent|e];
      [|intros [= <- <- _]; split; [exact Hok|discriminate]].
    destruct (unpack _) as [resp|e] eqn:Hu;
      [|intros [= <- <- _]; split; [exact Hok|discriminate]].
    destruct (is_request resp) eqn:Hq;
      [intros [= <- <- _]; split; [exact Hok|discriminate]|].
    destruct (_ && _) eqn:Hagree; intros [= <- <- _].
    - split; [|intros o [= <-]; discriminate].
      apply andb_true_iff in Hagree as [Hflags _].
      apply andb_true_iff in Hflags as [_ Hc].
      intros key h. destruct (decide (key = (data request, show_steps request)))
        as [->|Hne].
      + rewrite lookup_insert_eq. intros [= <-].
        exact (accepted_cacheable _ (unpack_accepted _ _ Hu) Hq Hc).
      + rewrite lookup_insert_ne by congruence. apply Hok.
    - split; [exact Hok|intros o [= <-]; discriminate]. }
  unfold proxy_process_request.
  destruct (is_request request); cbn [negb];
    [|intros [= <- <- _]; split; [exact Hok|discriminate]].
  destruct (cache !! _) as [entry|] eqn:Hlook; [|apply Hf].
  destruct (negb (cache_control request =? 0)); [|apply Hf].
  destruct (_ && _); [|apply Hf].
  intros [= <- <- _]. split; [exact Hok|].
  intros o [= <-] _. cbn [response]. exact (Hok _ _ Hlook).
Qed.

(** X19: A miss hands the client what the server sent: when the cache has no
    entry for the request and the server replies with the packed form
    of a response the constructor accepted, the proxy returns that very
    response. *)
Theorem miss_returns_server_response request cache t1 t2 server sent h bs :
  is_request request = true ->
  cache !! (data request, show_steps request) = None ->
  accepts server = true ->
  pack request = OK sent ->
  accepted h -> fits_wire h -> total_length h < 2 ^ 16 -> is_request h = false ->
  pack h = OK bs -> reply server sent = bs ->
  exists o cache',
    proxy_process_request request cache t1 t2 server
    = (OK o, cache', [Connect; SendAll sent; Recv bs])
    /\ response o = h /\ cache_hit o = false.
Proof.
  intros Hreq Hmiss Hacc Hsent Hh Hw Hlen Hq Hbs Hreply.
  destruct (unpack_pack h Hh Hw Hlen) as (bs' & Hbs' & Hu).
  assert (bs' = bs) by congruence. subst bs'.
  assert (Htake : take (Z.to_nat BUFFER_SIZE) bs = bs).
  { apply take_ge. pose proof (pack_length h bs Hbs) as Hn.
    destruct Hh as (ts & tl & r & c & s & q & st & cc & d & w & Hinit).
    apply init_inv in Hinit as (-> & _ & Hd). cbn [data] in Hn.
    header_constants. unfold BUFFER_SIZE, len in *. lia. }
  unfold proxy_process_request. rewrite Hreq, Hmiss. cbn [negb].
  unfold forward. rewrite Hacc, Hsent, Hreply, Htake, Hu, Hq. cbn [negb].
  destruct (_ && _); eexists _, _; split; try reflexivity; split; reflexivity.
Qed.

(** ** Operators called with several operands *)

Section BuilderFacts.

Context {num RandomState : Type}.

#[local] Abbreviation Expression := (Expression num RandomState).
#[local] Abbreviation Expr := (Expr num RandomState).








End BuilderFacts.

(** ** The client's reading of a response *)

Section ClientFacts.

Context {num : Type}.
Variable str_of_num : num -> string.
Variable str_of_object : pyobject num -> string.
Variable loads : bytes -> result (pyobject num).

#[local] Abbreviation process_response :=
  (process_response str_of_num str_of_object loads).

(** X21: [process_response] returns only for a response with status 200
    whose payload is a pair of a number and a list, and then only when
    the list does not have exactly one element and, if it has more than
    two, its first element has a length.  In every other case it
    raises. *)
Theorem process_response_returns_iff (response : CalculatorHeader) :
  (process_response response).1 = OK tt
  <-> is_request response = false /\ status_code response = 200
      /\ exists value steps,
           data_to_result loads response = OK (value, steps)
           /\ length steps <> 1%nat
           /\ ((2 < length steps)%nat ->
               exists expr, head steps = Some expr /\ is_OK (py_len expr) = true).
Proof.
  unfold process_response. split.
  - destruct (is_request response); [discriminate|].
    destruct (Z.eqb_spec (status_code response) STATUS_OK) as [Hst|Hst].
    + destruct (data_to_result loads response) as [[value steps]|e]; [|discriminate].
      intros H. split; [reflexivity|]. split; [exact Hst|].
      exists value, steps. split; [reflexivity|].
      destruct steps as [|expr [|first rest]]; cbn [length]; [| discriminate |].
      * split; [lia|]. intros Hl; cbn in Hl; lia.
      * split; [lia|]. intros Hl. exists expr. split; [reflexivity|].
        destruct rest as [|v rest]; [cbn in Hl; lia|].
        rewrite bool_decide_eq_false_2 in H by discriminate.
        destruct (py_len expr); [reflexivity|discriminate].
    + destruct (status_code response =? STATUS_CLIENT_ERROR).
      { destruct (data_to_error loads response); discriminate. }
      destruct (status_code response =? STATUS_SERVER_ERROR); [|discriminate].
      destruct (data_to_error loads response); discriminate.
  - intros (Hreq & Hst & value & steps & Hres & Hone & Hlen).
    rewrite Hreq, Hst, Hres. cbn [Z.eqb STATUS_OK Pos.eqb].
    change (200 =? STATUS_OK) with true. cbn iota.
    destruct steps as [|expr [|first rest]]; [reflexivity|cbn in Hone; lia|].
    destruct rest as [|v rest]; [reflexivity|].
    rewrite bool_decide_eq_false_2 by discriminate.
    destruct Hlen as (expr' & [= <-] & Hok); [cbn; lia|].
    destruct (py_len expr); [reflexivity|discriminate].
Qed.

(** X22: How [process_response] raises: [CalculatorClientError] for a
    request, for an unknown status and for a status 400 that carries an
    exception, [CalculatorServerError] only for a status 500 that carries
    one, and nothing is printed before any of them. *)
Theorem process_response_errors (response : CalculatorHeader) :
  (is_request response = true ->
   process_response response
   = (Raise (CalculatorClientError "Got a request instead of a response"), []))
  /\ (is_request response = false ->
      status_code response <> 200 -> status_code response <> 400 ->
      status_code response <> 500 ->
      process_response response
      = (Raise (CalculatorClientError "Unknown status code"), []))
  /\ (forall err, is_request response = false ->
        data_to_error loads response = OK err ->
        (status_code response = 400 ->
         process_response response
         = (Raise (CalculatorClientError (exn_message err)), []))
        /\ (status_code response = 500 ->
            process_response response
            = (Raise (CalculatorServerError (exn_message err)), [])))
  /\ (forall msg, (process_response response).1 = Raise (CalculatorServerError msg) ->
        status_code response = 500).
Proof.
  unfold process_response. split; [|split; [|split]].
  - intros ->. reflexivity.
  - intros -> H2 H4 H5.
    apply Z.eqb_neq in H2, H4, H5.
    unfold STATUS_OK, STATUS_CLIENT_ERROR, STATUS_SERVER_ERROR.
    rewrite H2, H4, H5. reflexivity.
  - intros err -> Herr. rewrite Herr. split; intros ->; reflexivity.
  - intros msg. destruct (is_request response); [cbn [fst]; discriminate|].
    destruct (status_code response =? STATUS_OK).
    { unfold data_to_result.
      destruct (loads (data response)) as [o|e].
      - destruct o as [x|s|items|items|e|n]; try (cbn [fst]; discriminate).
        destruct items as [|[x|s|l|l|e|n] [|[x'|s'|l'|l'|e'|n'] [|? ?]]];
          try (cbn [fst]; discriminate).
        destruct l' as [|expr [|first [|v rest]]]; try (cbn [fst]; discriminate).
        rewrite bool_decide_eq_false_2 by discriminate.
        destruct expr as [?|?|?|?|?|[?|]]; cbn [py_len fst]; discriminate.
      - destruct e; cbn [fst]; discriminate. }
    destruct (status_code response =? STATUS_CLIENT_ERROR).
    { unfold data_to_error. destruct (loads (data response)) as [o|e].
      - destruct o; cbn [fst]; discriminate.
      - destruct e; cbn [fst]; discriminate. }
    destruct (Z.eqb_spec (status_code response) STATUS_SERVER_ERROR);
      [intros _; assumption|cbn [fst]; discriminate].
Qed.

End ClientFacts.

(** ** Server and client together *)



Section ServerAndClient.

Context {num RandomState : Type}.
Variable str_of_num : num -> string.
Variable str_of_object : pyobject num -> string.
Variable pickle_loads : bytes -> result (@unpickled num RandomState).
Variable pickle_dumps_result : num * list string -> bytes.
Variable pickle_dumps_error : exn -> bytes.
Variable loads : bytes -> result (pyobject num).

#[local] Abbreviation State := (State num RandomState).
#[local] Abbreviation process_request :=
  (server_process_request str_of_num pickle_loads pickle_dumps_result
     pickle_dumps_error).
#[local] Abbreviation process_response :=
  (process_response str_of_num str_of_object loads).

(** [pickle.loads] gives back what [pickle.dumps] was given. *)
Hypothesis loads_result : forall value steps,
  loads (pickle_dumps_result (value, steps))
  = OK (PyTuple [PyReal value; PyList (map PyStr steps)]).
Hypothesis loads_error : forall e,
  loads (pickle_dumps_error e) = OK (PyException e).




End ServerAndClient.

(** ** Closed examples of the further properties *)

Module Toy_facts.
Import Toy.




End Toy_facts.

Module FurtherExamples.
Import Ints Inputs.

Lemma unpack_ignores_padding_witness :
  unpack padded_response = OK some_response.
Proof.
  unfold padded_response.
  rewrite (unpack_ignores_padding (take 10 (packed some_response)) [Byte.x80]
             Byte.xff Byte.xff Byte.x00 Byte.x00 eq_refl).
  reflexivity.
Defined.

Lemma init_pack_unpack_witness :
  exists bs,
    pack some_response = OK bs /\ len bs = 12 + len [Byte.x80]
    /\ unpack bs = OK some_response.
Proof.
  apply (init_pack_unpack 1000 None 0 true false false 200 100 [Byte.x80]
           some_response []); [reflexivity|try lia..].
  unfold given_length, HEADER_MIN_LENGTH, struct.calcsize, len. cbn [length]. lia.
Defined.

Lemma calculate_frame_witness :
  contents used 0 `prefix_of` contents (calculate three_times_seven 0 used).2 0.
Proof.
  destruct (calculate_frame three_times_seven 0%nat used
              (calculate three_times_seven 0 used).1
              (calculate three_times_seven 0 used).2) as [H _].
  - cbn. lia.
  - reflexivity.
  - exact H.
Defined.

Lemma calculate_step_count_witness :
  length (contents (calculate three_times_seven 0 loaded).2 0) = 4%nat.
Proof.
  destruct (calculate_step_count three_times_seven 0%nat loaded 21 0%nat
              (calculate three_times_seven 0 loaded).2 Nat.lt_0_1 eq_refl)
    as [H _].
  exact H.
Defined.

Lemma calculate_unknown_raises_witness :
  is_OK (calculate unknown_operand 0 loaded).1 = false.
Proof.
  apply (calculate_unknown_raises unknown_operand 0%nat loaded Nat.lt_0_1).
  reflexivity.
Defined.

Lemma process_request_response_witness :
  exists h, (serve payload_sum).1 = OK h /\ cache_control h = 65535.
Proof.
  eexists. split; [reflexivity|].
  eapply (process_request_response str_of_int pickle_loads pickle_dumps_result
            pickle_dumps_error (request_for payload_sum) 1000 loaded).
  reflexivity.
Defined.

Lemma process_request_success_witness :
  exists h, (serve payload_sum).1 = OK h /\ show_steps h = true.
Proof.
  eexists. split; [reflexivity|].
  destruct (process_request_success str_of_int pickle_loads pickle_dumps_result
              pickle_dumps_error (request_for payload_sum) 1000 loaded
              (BinaryExpr (const 1) ADD (const 2)) 3 1%nat
              (calculate (BinaryExpr (const 1) ADD (const 2)) 1 (new_list loaded).2).2
              eq_refl eq_refl eq_refl) as [_ H].
  destruct (H _ eq_refl) as (_ & Hshow & _). exact Hshow.
Defined.

Lemma process_request_stateless_witness :
  (server_process_request str_of_int pickle_loads pickle_dumps_result
     pickle_dumps_error (request_for payload_sum) 1000 used).1
  = (serve payload_sum).1.
Proof.
  apply (process_request_stateless str_of_int pickle_loads pickle_dumps_result
           pickle_dumps_error (request_for payload_sum) 1000 used loaded).
  reflexivity.
Defined.

Lemma cached_then_hit_witness :
  proxy_process_request (request_for payload_sum)
    (<[(payload_sum, true) := some_response]> ∅) 1050 1060 no_server
  = (OK (hit some_response (Finite 50) Infinite),
     <[(payload_sum, true) := some_response]> ∅, []).
Proof.
  apply (cached_then_hit (request_for payload_sum) ∅ 1010 1020 some_server
           {| response := some_response; server_time_remaining := Finite 80;
              client_time_remaining := Infinite; cache_hit := false;
              was_stale := false; cached := true |}
           (<[(payload_sum, true) := some_response]> ∅)
           [Connect; SendAll (packed (request_for payload_sum));
            Recv (packed some_response)]
           1050 1060 no_server).
  - reflexivity.
  - reflexivity.
  - discriminate.
  - reflexivity.
  - reflexivity.
Defined.

Lemma proxy_cache_invariant_witness :
  cache_ok (<[(payload_sum, true) := some_response]> (∅ : Cache)).
Proof.
  apply (proxy_cache_invariant (request_for payload_sum) ∅ 1010 1020 some_server
           (OK {| response := some_response; server_time_remaining := Finite 80;
                  client_time_remaining := Infinite; cache_hit := false;
                  was_stale := false; cached := true |})
           (<[(payload_sum, true) := some_response]> ∅)
           [Connect; SendAll (packed (request_for payload_sum));
            Recv (packed some_response)]).
  - intros key h H. rewrite lookup_empty in H. discriminate.
  - reflexivity.
Defined.

Lemma miss_returns_server_response_witness :
  exists o cache',
    proxy_process_request (request_for payload_sum) ∅ 1010 1020 some_server
    = (OK o, cache',
       [Connect; SendAll (packed (request_for payload_sum));
        Recv (packed some_response)])
    /\ response o = some_response /\ cache_hit o = false.
Proof.
  apply (miss_returns_server_response (request_for payload_sum) ∅ 1010 1020
           some_server (packed (request_for payload_sum)) some_response
           (packed some_response)); try reflexivity.
  - exists 1000, None, 0, true, false, false, 200, 100, [Byte.x80], [].
    reflexivity.
  - unfold fits_wire. cbn. lia.
Defined.



End FurtherExamples.
